(** * The renter's upload path (modules/renter/upload.go)

    The file embeds the chunked, erasure-coded upload pipeline of the renter:
    the dispatcher loop of [upload], the goroutines running [uploadWorker],
    the two unbuffered channels between them, and the sequential set-up code
    of [Upload] and [checkWalletBalance].

    Goroutines are modelled by an interleaving semantics: a state holds the
    program point of the dispatcher and of every worker, and a schedule (a
    list of actors) picks who moves next.  A send on an unbuffered channel
    and the matching receive are one joint move. *)

From Stdlib Require Import ZArith List String Ascii Strings.Byte QArith Qround.
From stdpp Require Import base option list gmap strings fin_maps fin_sets.
Import ListNotations.

Local Open Scope string_scope.
Local Open Scope Z_scope.
Local Open Scope list_scope.

(** ** Machine integers *)

(** Conversion to (and arithmetic in) Go's [uint64]. *)
Definition uint64 (z : Z) : Z := z mod 2 ^ 64.

(** Arithmetic in Go's [int] (64 bits, two's complement). *)
Definition int64 (z : Z) : Z := (z + 2 ^ 63) mod 2 ^ 64 - 2 ^ 63.

(** ** Errors *)

(** Go's [error] values met by the code: the two sentinels of package [io]
    and errors made by [errors.New] (or by a collaborator), which carry a
    message.  A [nil] error is [None] of [option error]. *)
Inductive error :=
| EOF
| ErrUnexpectedEOF
| ErrNew (msg : string).

#[global] Instance error_eq_dec : EqDecision error.
Proof. solve_decision. Defined.

(** A Go result pair [(value, err)]. *)
Inductive res (A : Type) :=
| Ok (a : A)
| Err (e : error).
Arguments Ok {A} a.
Arguments Err {A} e.

(** ** Data model *)

Record uploadPiece := mkPiece {
  data : list byte;
  chunkIndex : Z;
  pieceIndex : Z
}.

(** Modelled from the spec: the contract record of files.go, which is not
    among the sources.  "Contract: host-identified accumulator of what has
    this host stored so far"; [upload] only reads its [IP] field. *)
Record fileContract := mkContract {
  IP : string;
  Pieces : list (Z * Z)
}.

(** The [uploader] interface. A session is a value of the implementing type;
    [addPiece] returns the session after the call together with the error. *)
Class uploader (H : Type) := {
  addPiece : H -> uploadPiece -> H * option error;
  getFileContract : H -> fileContract
}.

(** [io.Reader] as seen through [io.ReadFull]: reading into a buffer of [n]
    bytes returns the reader after the call, the bytes read and the error. *)
Class Reader (R : Type) := {
  io_ReadFull : R -> nat -> R * list byte * option error
}.

(** The [modules.ErasureCoder] interface, as far as the upload path uses it. *)
Record ErasureCoder := mkCoder {
  NumPieces : Z;
  MinPieces : Z;
  Encode : list byte -> res (list (list byte))
}.

(** Modelled from the spec: the file record of files.go, which is not among
    the sources.  "File record: identity (nickname), erasure-coding
    configuration, piece size, total plaintext size, a per-file symmetric
    encryption key, a mapping from host identity to contract, and two
    progress counters (bytes uploaded, chunks uploaded)". *)
Record file := mkFile {
  fname : string;
  fsize : Z;
  contracts : gmap string fileContract;
  masterKey : list byte;
  erasureCode : ErasureCoder;
  pieceSize : Z;
  fmode : Z;
  bytesUploaded : Z;
  chunksUploaded : Z
}.

(** Modelled from the spec: [chunkSize] of files.go.  "Chunk: a contiguous
    slice of the source stream, fixed length = piece size x data-piece
    count". *)
Definition chunkSize (f : file) : Z :=
  uint64 (pieceSize f * uint64 (MinPieces (erasureCode f))).

Definition set_bytesUploaded (f : file) (b : Z) : file :=
  mkFile (fname f) (fsize f) (contracts f) (masterKey f) (erasureCode f)
         (pieceSize f) (fmode f) b (chunksUploaded f).

Definition set_chunksUploaded (f : file) (c : Z) : file :=
  mkFile (fname f) (fsize f) (contracts f) (masterKey f) (erasureCode f)
         (pieceSize f) (fmode f) (bytesUploaded f) c.

Definition set_contracts (f : file) (m : gmap string fileContract) : file :=
  mkFile (fname f) (fsize f) m (masterKey f) (erasureCode f)
         (pieceSize f) (fmode f) (bytesUploaded f) (chunksUploaded f).

Definition set_fmode (f : file) (m : Z) : file :=
  mkFile (fname f) (fsize f) (contracts f) (masterKey f) (erasureCode f)
         (pieceSize f) m (bytesUploaded f) (chunksUploaded f).

(** [len(req.data)] as an integer. *)
Definition len {A} (l : list A) : Z := Z.of_nat (length l).

(** [make([]byte, n)] followed by a read of [got] into it: the bytes read,
    then zeros up to the length of the buffer. *)
Definition fill_chunk (n : nat) (got : list byte) : list byte :=
  take n (got ++ replicate n x00).

(** ** The pipeline: [upload] and its workers *)

(** Program points of one [uploadWorker] goroutine. *)
Inductive wstate :=
| WRecv                      (* at [for req := range reqChan] *)
| WAddPiece (req : uploadPiece)  (* holds [req], about to call [host.addPiece] *)
| WCount (req : uploadPiece)     (* [addPiece] returned nil, about to [atomic.AddUint64] *)
| WSend                      (* left the loop, at [respChan <- host.fileContract()] *)
| WDone.                     (* returned *)

(** Program points of the goroutine running [upload], after the loop that
    spawns the workers.  That loop has no exit of its own and a spawned
    worker can do nothing before the first send on [reqChan], so a run
    starts with every worker at [WRecv]. *)
Inductive dstate :=
| DRead (i : Z)                                  (* top of the chunk loop *)
| DSend (i : Z) (j : Z) (rest : list (list byte)) (* inside [for j, data := range pieces] *)
| DClose                                         (* at [close(reqChan)] *)
| DDrain (n : nat)                               (* [n] iterations of [for range hosts] left *)
| DRet (err : option error).                     (* returned [err] *)

(** What a step does, as seen from outside. *)
Inductive event :=
| EvRead (i : Z) (got : list byte) (err : option error)
| EvEncodeError (i : Z) (e : error)
| EvDispatch (k : nat) (req : uploadPiece)
| EvChunkCounted (i : Z)
| EvClose
| EvRangeEnd (k : nat)
| EvAddPiece (k : nat) (req : uploadPiece) (err : option error)
| EvBytesCounted (k : nat) (n : Z)
| EvContract (k : nat) (c : fileContract)
| EvDrained.

(** Who moves: the dispatcher on its own, or worker [k] (on its own, or
    together with the dispatcher across a channel). *)
Inductive actor :=
| Disp
| Work (k : nat).

(** A worker has reached its send, or is past it. *)
Definition left_loop (pc : wstate) : bool :=
  match pc with
  | WSend | WDone => true
  | _ => false
  end.

Definition is_done (pc : wstate) : bool :=
  match pc with
  | WDone => true
  | _ => false
  end.

(** Bytes a worker has delivered but not yet added to the counter. *)
Definition pending (pc : wstate) : Z :=
  match pc with
  | WCount req => len (data req)
  | _ => 0
  end.

Section Pipeline.
Context {H R : Type} `{!uploader H} `{!Reader R}.

Record worker := mkWorker {
  host : H;
  wpc : wstate
}.

Record state := mkState {
  src : R;                 (* the reader [r] *)
  disp : dstate;
  workers : list worker;
  reqClosed : bool;        (* [reqChan] has been closed *)
  fobj : file              (* the receiver [f] *)
}.

Definition set_disp (s : state) (d : dstate) : state :=
  mkState (src s) d (workers s) (reqClosed s) (fobj s).

Definition set_worker (s : state) (k : nat) (w : worker) : state :=
  mkState (src s) (disp s) (<[k := w]> (workers s)) (reqClosed s) (fobj s).

Definition set_fobj (s : state) (f : file) : state :=
  mkState (src s) (disp s) (workers s) (reqClosed s) f.

(** The state in which [upload f r hosts] enters its chunk loop. *)
Definition upload_init (f : file) (r : R) (hosts : list H) : state :=
  mkState r (DRead 0) ((fun h => mkWorker h WRecv) <$> hosts) false f.

(** Lines 82-93: read the next chunk and encode it. *)
Definition read_chunk (s : state) (i : Z) : event * state :=
  let n := Z.to_nat (chunkSize (fobj s)) in
  let '(r', got, err) := io_ReadFull (src s) n in
  let s' := mkState r' (disp s) (workers s) (reqClosed s) (fobj s) in
  let chunk := fill_chunk n got in
  match err with
  | Some EOF => (EvRead i got err, set_disp s' DClose)
  | Some (ErrNew msg) => (EvRead i got err, set_disp s' (DRet (Some (ErrNew msg))))
  | Some ErrUnexpectedEOF | None =>
      match Encode (erasureCode (fobj s)) chunk with
      | Err e => (EvEncodeError i e, set_disp s' (DRet (Some e)))
      | Ok pieces => (EvRead i got err, set_disp s' (DSend i 0 pieces))
      end
  end.

(** A move of the dispatcher that needs no partner. *)
Definition disp_step (s : state) : option (event * state) :=
  match disp s with
  | DRead i => Some (read_chunk s i)
  | DSend i j [] =>
      let f := fobj s in
      Some (EvChunkCounted i,
            set_disp (set_fobj s (set_chunksUploaded f (uint64 (chunksUploaded f + 1))))
                     (DRead (uint64 (i + 1))))
  | DSend _ _ (_ :: _) => None
  | DClose =>
      Some (EvClose,
            mkState (src s) (DDrain (length (workers s))) (workers s) true (fobj s))
  | DDrain O => Some (EvDrained, set_disp s (DRet None))
  | DDrain (S _) => None
  | DRet _ => None
  end.

(** A move of worker [k]. *)
Definition worker_step (s : state) (k : nat) : option (event * state) :=
  match workers s !! k with
  | None => None
  | Some w =>
      match wpc w with
      | WRecv =>
          if reqClosed s then
            Some (EvRangeEnd k, set_worker s k (mkWorker (host w) WSend))
          else
            match disp s with
            | DSend i j (d :: rest) =>
                let req := mkPiece d i (uint64 j) in
                Some (EvDispatch k req,
                      set_disp (set_worker s k (mkWorker (host w) (WAddPiece req)))
                               (DSend i (j + 1) rest))
            | _ => None
            end
      | WAddPiece req =>
          let '(h', err) := addPiece (host w) req in
          match err with
          | Some e => Some (EvAddPiece k req err, set_worker s k (mkWorker h' WSend))
          | None => Some (EvAddPiece k req err, set_worker s k (mkWorker h' (WCount req)))
          end
      | WCount req =>
          let f := fobj s in
          let n := uint64 (len (data req)) in
          Some (EvBytesCounted k n,
                set_fobj (set_worker s k (mkWorker (host w) WRecv))
                         (set_bytesUploaded f (uint64 (bytesUploaded f + n))))
      | WSend =>
          match disp s with
          | DDrain (S n) =>
              let c := getFileContract (host w) in
              let f := fobj s in
              Some (EvContract k c,
                    set_disp (set_fobj (set_worker s k (mkWorker (host w) WDone))
                                       (set_contracts f (<[IP c := c]> (contracts f))))
                             (DDrain n))
          | _ => None
          end
      | WDone => None
      end
  end.

Definition step (s : state) (a : actor) : option (event * state) :=
  match a with
  | Disp => disp_step s
  | Work k => worker_step s k
  end.

(** Run a schedule; [None] when it asks a blocked actor to move. *)
Fixpoint run (s : state) (sched : list actor) : option (list event * state) :=
  match sched with
  | [] => Some ([], s)
  | a :: sched' =>
      match step s a with
      | None => None
      | Some (e, s') =>
          match run s' sched' with
          | None => None
          | Some (tr, s'') => Some (e :: tr, s'')
          end
      end
  end.

(** The moves of one [uploadWorker], seen on the worker alone: its program
    point and session before the move, the event, and both after it. *)
Inductive wtrans (k : nat) : worker -> event -> worker -> Prop :=
| wt_range_end h :
    wtrans k (mkWorker h WRecv) (EvRangeEnd k) (mkWorker h WSend)
| wt_receive h req :
    wtrans k (mkWorker h WRecv) (EvDispatch k req) (mkWorker h (WAddPiece req))
| wt_added h req h' :
    addPiece h req = (h', None) ->
    wtrans k (mkWorker h (WAddPiece req)) (EvAddPiece k req None) (mkWorker h' (WCount req))
| wt_failed h req h' e :
    addPiece h req = (h', Some e) ->
    wtrans k (mkWorker h (WAddPiece req)) (EvAddPiece k req (Some e)) (mkWorker h' WSend)
| wt_counted h req :
    wtrans k (mkWorker h (WCount req)) (EvBytesCounted k (uint64 (len (data req))))
           (mkWorker h WRecv)
| wt_sent h :
    wtrans k (mkWorker h WSend) (EvContract k (getFileContract h)) (mkWorker h WDone).

(** Sum of an integer measure over the workers. *)
Definition sum_over (m : wstate -> Z) (ws : list worker) : Z :=
  fold_right (fun w acc => m (wpc w) + acc) 0 ws.

(** Number of workers that have returned. *)
Definition ndone (ws : list worker) : Z :=
  sum_over (fun pc => if is_done pc then 1 else 0) ws.

(** Bytes delivered by the workers and not yet added to the counter. *)
Definition in_flight (ws : list worker) : Z := sum_over pending ws.

(** [f.upload(r, hosts)] under a schedule. *)
Definition upload (f : file) (r : R) (hosts : list H) (sched : list actor)
  : option (list event * state) :=
  run (upload_init f r hosts) sched.

End Pipeline.

(** ** The renter: [checkWalletBalance] and [Upload] *)

(** [filepath.Ext]: the suffix of [path] from the last dot of its last
    element, empty when that element has no dot.  The scan of the library
    function runs from the end of the string; [Ext_scan] gives its outcome on
    a suffix: found, stopped at a separator, or still looking. *)
Inductive ext_scan :=
| ExtFound (ext : string)
| ExtStop
| ExtGoOn.

Fixpoint Ext_scan (path : string) : ext_scan :=
  match path with
  | EmptyString => ExtGoOn
  | String c rest =>
      match Ext_scan rest with
      | ExtFound e => ExtFound e
      | ExtStop => ExtStop
      | ExtGoOn =>
          if Ascii.eqb c "/" then ExtStop
          else if Ascii.eqb c "." then ExtFound (String c rest)
          else ExtGoOn
      end
  end.

Definition filepath_Ext (path : string) : string :=
  match Ext_scan path with
  | ExtFound e => e
  | _ => ""
  end.

(** Modelled from the spec: [types.Currency] of package types, which is not
    among the sources: a non-negative integer of arbitrary size.  The balance
    check "estimates total cost (price x duration x size, doubled as a safety
    buffer) and compares against current funds". *)
Definition Currency := Z.
Definition NewCurrency64 (x : Z) : Currency := x.
Definition Currency_Add (a b : Currency) : Currency := a + b.
Definition Currency_Mul (a b : Currency) : Currency := a * b.
Definition Currency_Div (a b : Currency) : Currency := a / b.
Definition Currency_Cmp (a b : Currency) : Z :=
  match a ?= b with
  | Lt => -1
  | Eq => 0
  | Gt => 1
  end.

(** [modules.HostSettings], as far as the upload path reads it. *)
Record HostSettings := mkHost {
  IPAddress : string;
  Price : Currency
}.

(** [os.FileInfo]. *)
Record FileInfo := mkFileInfo {
  Size : Z;
  Mode : Z
}.

(** [modules.FileUploadParams]; a nil [ErasureCode] is [None]. *)
Record FileUploadParams := mkParams {
  Filename : string;
  Duration : Z;
  Nickname : string;
  ErasureCode : option ErasureCoder;
  PieceSize : Z
}.

Definition defaultDuration : Z := 6000.
Definition defaultDataPieces : Z := 2.
Definition defaultParityPieces : Z := 10.

(** [crypto.SegmentSize]: the comment on the piece sizes gives it as 64. *)
Definition SegmentSize : Z := 64.

(** Calls that leave the renter, in the order they are made. *)
Inductive effect :=
| FxOpen (filename : string)
| FxHandleStat
| FxStat (filename : string)
| FxNewRSCode (nData nParity : Z)
| FxRandomHosts (n : Z)
| FxConfirmedBalance
| FxNewHostUploader (h : HostSettings) (totalsize duration : Z)
| FxSave
| FxPipeline (e : event)
| FxSaveFile
| FxClose (i : nat).

(** The collaborators of the upload path: the operating system, the host
    database, the wallet, the session constructor, the Reed-Solomon encoder,
    the key generator and the persistence code.  None of them is among the
    sources; they are parameters of the development, and so are the constant
    [crypto.TwofishOverhead] and the helper [numChunks] of files.go. *)
Class Collaborators (H R DB : Type) := {
  os_Open : string -> res R;
  handle_Stat : R -> res FileInfo;
  os_Stat : string -> res FileInfo;
  hostDB_RandomHosts : DB -> Z -> list HostSettings * DB;
  wallet_ConfirmedBalance : Currency;
  newHostUploader : HostSettings -> Z -> Z -> list byte -> res H;
  rsEncode : Z -> Z -> list byte -> res (list (list byte));
  GenerateTwofishKey : list byte;
  numChunks : file -> Z;
  saveFile : file -> option error;
  TwofishOverhead : Z
}.

(** The [Renter]: its file table and its host database, with the log of the
    calls made so far. *)
Record Renter (DB : Type) := mkRenter {
  files : gmap string file;
  hostDB : DB;
  rlog : list effect
}.
Arguments mkRenter {DB}.
Arguments files {DB}.
Arguments hostDB {DB}.
Arguments rlog {DB}.

(** How a call on the renter ends: it returns a value, returns an error,
    panics (a method call on a nil interface), or never returns under the
    given schedule. *)
Inductive outcome (A : Type) :=
| Returned (a : A)
| Failed (e : error)
| Panicked
| Blocked.
Arguments Returned {A} a.
Arguments Failed {A} e.
Arguments Panicked {A}.
Arguments Blocked {A}.

(** State and error monad of the renter's methods. *)
Definition M (DB A : Type) : Type := Renter DB -> outcome A * Renter DB.

Definition ret {DB A} (a : A) : M DB A := fun st => (Returned a, st).

Definition bind {DB A B} (m : M DB A) (k : A -> M DB B) : M DB B :=
  fun st =>
    match m st with
    | (Returned a, st') => k a st'
    | (Failed e, st') => (Failed e, st')
    | (Panicked, st') => (Panicked, st')
    | (Blocked, st') => (Blocked, st')
    end.

Definition fail {DB A} (e : error) : M DB A := fun st => (Failed e, st).

Definition errors_New {DB A} (msg : string) : M DB A := fail (ErrNew msg).

Definition panic {DB A} : M DB A := fun st => (Panicked, st).

Definition emit {DB} (x : effect) : M DB unit :=
  fun st => (Returned tt, mkRenter (files st) (hostDB st) (rlog st ++ [x])).

Definition get_files {DB} : M DB (gmap string file) :=
  fun st => (Returned (files st), st).

Definition put_files {DB} (m : gmap string file) : M DB unit :=
  fun st => (Returned tt, mkRenter m (hostDB st) (rlog st)).

(** A collaborator's result pair: the error, when there is one, is returned
    to the caller. *)
Definition try {DB A} (r : res A) : M DB A :=
  match r with
  | Ok a => ret a
  | Err e => fail e
  end.

Declare Scope renter_scope.
Delimit Scope renter_scope with renter.
Notation "'do' x <- m ; k" := (bind m (fun x => k))
  (at level 10, x name, m at level 100, k at level 200) : renter_scope.
Notation "'do' ' p <- m ; k" := (bind m (fun x => match x with p => k end))
  (at level 10, p strict pattern, m at level 100, k at level 200) : renter_scope.
Notation "'do_' m ; k" := (bind m (fun _ => k))
  (at level 10, m at level 100, k at level 200) : renter_scope.

Section RenterDefs.
Context {H R DB : Type} `{!uploader H} `{!Reader R} `{!Collaborators H R DB}.
Local Open Scope renter_scope.

Definition defaultPieceSize : Z := 2 ^ 22 - TwofishOverhead.
Definition smallPieceSize : Z := 2 ^ 16 - TwofishOverhead.

(** Modelled from the spec: [NewRSCode] of erasure.go, which is not among
    the sources.  The encoder "turns one chunk's raw bytes into an ordered
    list of fixed-size pieces, parityPieces + dataPieces total, such that any
    dataPieces of them reconstruct the chunk"; the encoding itself is the
    collaborator [rsEncode]. *)
Definition NewRSCode (nData nParity : Z) : ErasureCoder :=
  mkCoder (int64 (nData + nParity)) nData (rsEncode nData nParity).

(** Modelled from the spec: [newFile] of files.go, which is not among the
    sources.  The file record is "created once per upload attempt before any
    network activity", with a fresh key, no contract and both counters at
    zero. *)
Definition newFile (name : string) (code : ErasureCoder) (pieceSize fileSize : Z) : file :=
  mkFile name fileSize ∅ GenerateTwofishKey code pieceSize 0 0 0.

Definition call_os_Open (filename : string) : M DB R :=
  do_ emit (FxOpen filename); try (os_Open filename).

Definition call_handle_Stat (handle : R) : M DB FileInfo :=
  do_ emit FxHandleStat; try (handle_Stat handle).

Definition call_os_Stat (filename : string) : M DB FileInfo :=
  do_ emit (FxStat filename); try (os_Stat filename).

Definition call_RandomHosts (n : Z) : M DB (list HostSettings) :=
  do_ emit (FxRandomHosts n);
  fun st =>
    let '(hosts, db') := hostDB_RandomHosts (hostDB st) n in
    (Returned hosts, mkRenter (files st) db' (rlog st)).

Definition call_ConfirmedBalance : M DB Currency :=
  do_ emit FxConfirmedBalance; ret wallet_ConfirmedBalance.

Definition r_save : M DB unit := emit FxSave.

(** A method call on [up.ErasureCode]: a panic when the interface is nil. *)
Definition coder (up : FileUploadParams) : M DB ErasureCoder :=
  match ErasureCode up with
  | Some ec => ret ec
  | None => panic
  end.

Definition checkWalletBalance (up : FileUploadParams) : M DB unit :=
  do fileInfo <- call_os_Stat (Filename up);
  let curSize := NewCurrency64 (uint64 (Size fileInfo)) in
  do ec <- coder up;
  let sampleSize := Z.quot (int64 (NumPieces ec * 3)) 2 in
  do hosts <- call_RandomHosts sampleSize;
  let averagePrice :=
    fold_left (fun acc h => Currency_Add acc (Price h)) hosts (0 : Currency) in
  if len hosts =? 0 then errors_New "no hosts!"
  else
    let averagePrice := Currency_Div averagePrice (NewCurrency64 (uint64 (len hosts))) in
    let estimatedCost :=
      Currency_Mul (Currency_Mul averagePrice (NewCurrency64 (uint64 (Duration up)))) curSize in
    let bufferedCost := Currency_Mul estimatedCost (NewCurrency64 2) in
    do siacoinBalance <- call_ConfirmedBalance;
    if Currency_Cmp bufferedCost siacoinBalance >? 0 then
      errors_New "insufficient balance for upload"
    else ret tt.

(** Lines 180-192: fill in the missing upload parameters. *)
Definition fill_defaults (up : FileUploadParams) (fileInfo : FileInfo) : M DB FileUploadParams :=
  let duration := if Duration up =? 0 then defaultDuration else Duration up in
  do code <-
    match ErasureCode up with
    | None =>
        do_ emit (FxNewRSCode defaultDataPieces defaultParityPieces);
        ret (Some (NewRSCode defaultDataPieces defaultParityPieces))
    | Some ec => ret (Some ec)
    end;
  let psize :=
    if PieceSize up =? 0 then
      if Size fileInfo >? defaultPieceSize then defaultPieceSize else smallPieceSize
    else PieceSize up in
  ret (mkParams (Filename up) duration (Nickname up) code psize).

(** Lines 207-214: try to open a session with every candidate, keeping the
    ones that could be opened, in order. *)
Fixpoint connect_hosts (cands : list HostSettings) (totalsize duration : Z)
    (key : list byte) : M DB (list H) :=
  match cands with
  | [] => ret []
  | h :: cands' =>
      do_ emit (FxNewHostUploader h totalsize duration);
      match newHostUploader h totalsize duration key with
      | Err _ => connect_hosts cands' totalsize duration key
      | Ok session =>
          do hosts <- connect_hosts cands' totalsize duration key;
          ret (session :: hosts)
      end
  end.

(** [defer host.Close()] for each of [n] sessions: when the body returns or
    fails, the sessions are closed, last opened first. *)
Definition with_deferred_Close {A} (n : nat) (body : M DB A) : M DB A :=
  fun st =>
    match body st with
    | (Blocked, st') => (Blocked, st')
    | (o, st') =>
        (o, mkRenter (files st') (hostDB st') (rlog st' ++ map FxClose (rev (seq 0 n))))
    end.

(** The call [f.upload(handle, hosts)] of line 226.  The table holds a
    pointer to [f], so the entry under the nickname sees what the pipeline
    did to the record. *)
Definition call_upload (nickname : string) (f : file) (handle : R) (hosts : list H)
    (sched : list actor) : M DB (option error * file) :=
  fun st =>
    match upload f handle hosts sched with
    | None => (Blocked, st)
    | Some (tr, s) =>
        let st' := mkRenter (<[nickname := fobj s]> (files st)) (hostDB st)
                            (rlog st ++ map FxPipeline tr) in
        match disp s with
        | DRet err => (Returned (err, fobj s), st')
        | _ => (Blocked, st')
        end
    end.

Definition call_saveFile (f : file) : M DB unit :=
  do_ emit FxSaveFile;
  match saveFile f with
  | Some e => fail e
  | None => ret tt
  end.

(** Lines 145-202 of [Upload]: the checks on the request, the defaults, the
    balance check and the creation of the file object.  Returns what the rest
    of [Upload] uses: the handle, the parameters with the defaults filled in,
    the erasure code and the file object. *)
Definition Upload_checks (up : FileUploadParams)
  : M DB (R * FileUploadParams * ErasureCoder * file) :=
  if negb (String.eqb (filepath_Ext (Filename up)) (filepath_Ext (Nickname up))) then
    errors_New "nickname and file name must have the same extension"
  else
    do handle <- call_os_Open (Filename up);
    do table <- get_files;
    if bool_decide (is_Some (table !! Nickname up)) then
      errors_New "file with that nickname already exists"
    else
      do fileInfo <- call_handle_Stat handle;
      if Size fileInfo >? 5 * 1024 * 1024 * 1024 then
        errors_New "cannot upload a file larger than 5 GB"
      else
        do up <- fill_defaults up fileInfo;
        do_ checkWalletBalance up;
        do ec <- coder up;
        let f := set_fmode (newFile (Nickname up) ec (PieceSize up) (uint64 (Size fileInfo)))
                           (Mode fileInfo mod 2 ^ 32) in
        ret (handle, up, ec, f).

(** Lines 204-214 of [Upload]: select and connect to hosts. *)
Definition Upload_connect (up : FileUploadParams) (ec : ErasureCoder) (f : file)
  : M DB (list H) :=
  let totalsize :=
    uint64 (uint64 (PieceSize up * uint64 (NumPieces ec)) * numChunks f) in
  do cands <- call_RandomHosts (Z.quot (int64 (NumPieces ec * 3)) 2);
  connect_hosts cands totalsize (Duration up) (masterKey f).

(** Lines 215-243 of [Upload]: the check on the number of sessions, the
    registration of the file, the transfer and its outcome. *)
Definition Upload_transfer (up : FileUploadParams) (ec : ErasureCoder) (f : file)
    (handle : R) (hosts : list H) (sched : list actor) : M DB unit :=
  if len hosts <? MinPieces ec then
    errors_New "not enough hosts to support upload"
  else
    do table <- get_files;
    do_ put_files (<[Nickname up := f]> table);
    do_ r_save;
    do '(err, f') <- call_upload (Nickname up) f handle hosts sched;
    match err with
    | Some _ =>
        do table <- get_files;
        do_ put_files (delete (Nickname up) table);
        do_ r_save;
        errors_New "failed to upload any file pieces"
    | None => call_saveFile f'
    end.

Definition Upload (up : FileUploadParams) (sched : list actor) : M DB unit :=
  do '(handle, up, ec, f) <- Upload_checks up;
  do hosts <- Upload_connect up ec f;
  with_deferred_Close (length hosts) (Upload_transfer up ec f handle hosts sched).

End RenterDefs.

(** ** Observations on runs *)

Definition count_ev (p : event -> bool) (tr : list event) : nat :=
  length (List.filter p tr).

(** Worker [k] hands its contract to the orchestrator. *)
Definition is_contract (k : nat) (e : event) : bool :=
  match e with
  | EvContract k' _ => Nat.eqb k' k
  | _ => false
  end.

(** Worker [k] leaves its loop: the channel was closed, or [addPiece]
    returned an error. *)
Definition is_loop_exit (k : nat) (e : event) : bool :=
  match e with
  | EvRangeEnd k' => Nat.eqb k' k
  | EvAddPiece k' _ (Some _) => Nat.eqb k' k
  | _ => false
  end.

(** Worker [k] takes a piece, calls [addPiece] or adds to the counter. *)
Definition is_consume (k : nat) (e : event) : bool :=
  match e with
  | EvDispatch k' _ => Nat.eqb k' k
  | EvAddPiece k' _ _ => Nat.eqb k' k
  | EvBytesCounted k' _ => Nat.eqb k' k
  | _ => false
  end.

(** The dispatcher reads the stream, encodes or hands out a piece. *)
Definition is_dispatcher_work (e : event) : bool :=
  match e with
  | EvRead _ _ _ => true
  | EvEncodeError _ _ => true
  | EvDispatch _ _ => true
  | EvChunkCounted _ => true
  | _ => false
  end.

Definition contracts_sent (k : nat) (tr : list event) : nat :=
  count_ev (is_contract k) tr.

Definition loop_exits (k : nat) (tr : list event) : nat :=
  count_ev (is_loop_exit k) tr.

(** Length of the piece a host accepted in this step, 0 for other steps. *)
Definition ev_delivered (e : event) : Z :=
  match e with
  | EvAddPiece _ req None => len (data req)
  | _ => 0
  end.

(** Sum of the byte lengths of all pieces delivered to hosts in a run. *)
Definition delivered_bytes (tr : list event) : Z :=
  fold_right (fun e acc => ev_delivered e + acc) 0 tr.

(** Every [addPiece] call of the run returned nil. *)
Definition all_succeed (tr : list event) : Prop :=
  forall k req e, In (EvAddPiece k req (Some e)) tr -> False.

(** The identity under which a session's contract is filed. *)
Definition hostIP {H} `{!uploader H} (h : H) : string := IP (getFileContract h).

(** The requests for candidate hosts in a log. *)
Fixpoint host_requests (log : list effect) : list Z :=
  match log with
  | [] => []
  | FxRandomHosts n :: log' => n :: host_requests log'
  | _ :: log' => host_requests log'
  end.

(** A call that is upload traffic: a session is opened with a host, or the
    pipeline runs. *)
Definition is_traffic (x : effect) : bool :=
  match x with
  | FxNewHostUploader _ _ _ => true
  | FxPipeline _ => true
  | _ => false
  end.

(** The candidates with which a session could be opened, in order. *)
Fixpoint sessions {H R DB} `{!Collaborators H R DB} (cands : list HostSettings)
    (totalsize duration : Z) (key : list byte) : list H :=
  match cands with
  | [] => []
  | h :: cands' =>
      match newHostUploader h totalsize duration key with
      | Ok session => session :: sessions cands' totalsize duration key
      | Err _ => sessions cands' totalsize duration key
      end
  end.

(** [ceil(n * 1.5)] over the rationals. *)
Definition ceil_one_and_a_half (n : Z) : Z := Qceiling (inject_Z n * (3 # 2)).

(** ** Invariants of the pipeline *)

Section Invariants.
Context {H R : Type} `{!uploader H} `{!Reader R}.

(** A worker has sent its contract exactly when it has returned, and has
    left its loop exactly when it is at its send or past it. *)
Definition worker_inv (tr : list event) (s : @state H R) : Prop :=
  forall k w, workers s !! k = Some w ->
    contracts_sent k tr = (if is_done (wpc w) then 1 else 0)%nat /\
    loop_exits k tr = (if left_loop (wpc w) then 1 else 0)%nat.

(** The orchestrator counts the contracts: no worker has returned before
    the drain, and during the drain the workers still to be heard and the
    workers that have returned add up to all of them. *)
Definition phase_inv (s : @state H R) : Prop :=
  match disp s with
  | DDrain n => Z.of_nat n + ndone (workers s) = len (workers s) /\ reqClosed s = true
  | DRet None => ndone (workers s) = len (workers s) /\ reqClosed s = true
  | _ => ndone (workers s) = 0 /\ reqClosed s = false
  end.

(** The counter and the bytes still in flight account for every delivered
    piece, modulo the width of the counter. *)
Definition bytes_inv (b0 : Z) (tr : list event) (s : @state H R) : Prop :=
  uint64 (bytesUploaded (fobj s) + in_flight (workers s)) = uint64 (b0 + delivered_bytes tr).

(** Every session keeps the identity it started with. *)
Definition ips_inv (hosts : list H) (s : @state H R) : Prop :=
  (fun w => hostIP (host w)) <$> workers s = hostIP <$> hosts.

(** The contract map holds the contract of every worker that has returned,
    under its identity, and is as it was everywhere else. *)
Definition contracts_inv (m0 : gmap string fileContract) (s : @state H R) : Prop :=
  (forall k w, workers s !! k = Some w -> wpc w = WDone ->
     contracts (fobj s) !! hostIP (host w) = Some (getFileContract (host w))) /\
  (forall ip, (forall k w, workers s !! k = Some w -> wpc w = WDone -> hostIP (host w) <> ip) ->
     contracts (fobj s) !! ip = m0 !! ip).

(** The dispatcher is past its chunk loop on the way to a nil return. *)
Definition closing (d : dstate) : Prop :=
  match d with
  | DClose | DDrain _ | DRet None => True
  | _ => False
  end.

(** Worker [k] is at its send or past it. *)
Definition out_of_loop (k : nat) (s : @state H R) : Prop :=
  exists w, workers s !! k = Some w /\ left_loop (wpc w) = true.

End Invariants.

(** ** Specifications of the renter's methods *)

(** [logs P Q m]: whatever the renter, [m] only appends to the log, every
    call it appends satisfies [P], and a value it returns satisfies [Q]. *)
Definition logs {DB A} (P : effect -> Prop) (Q : A -> Prop) (m : M DB A) : Prop :=
  forall st, exists l,
    rlog (m st).2 = rlog st ++ l /\ Forall P l /\
    forall a, (m st).1 = Returned a -> Q a.

(** The erasure code [Upload] works with: the caller's, or the default. *)
Definition effective_code {H R DB} `{!Collaborators H R DB} (up : FileUploadParams)
  : ErasureCoder :=
  match ErasureCode up with
  | Some ec => ec
  | None => NewRSCode defaultDataPieces defaultParityPieces
  end.

(** The number of candidates asked of the host database for a code:
    [NumPieces() * 3 / 2] in Go's [int]. *)
Definition requested_hosts (ec : ErasureCoder) : Z :=
  Z.quot (int64 (NumPieces ec * 3)) 2.

(** The calls [checkWalletBalance] can make. *)
Definition balance_event (up : FileUploadParams) (ec : ErasureCoder) (x : effect) : Prop :=
  match x with
  | FxStat filename => filename = Filename up
  | FxRandomHosts n => n = requested_hosts ec
  | FxConfirmedBalance => True
  | _ => False
  end.

(** The calls [Upload] can make before it selects hosts. *)
Definition checks_event {H R DB} `{!Collaborators H R DB} (up : FileUploadParams)
    (x : effect) : Prop :=
  match x with
  | FxOpen filename => filename = Filename up
  | FxHandleStat => True
  | FxNewRSCode nData nParity =>
      ErasureCode up = None /\ nData = defaultDataPieces /\ nParity = defaultParityPieces
  | _ => balance_event up (effective_code up) x
  end.

(** A request for candidate hosts asks for [n] of them. *)
Definition request_is (n : Z) (x : effect) : Prop :=
  match x with
  | FxRandomHosts n' => n' = n
  | _ => True
  end.

(** ** Further observations on runs *)


(** The pieces of chunk [i] still to be handed out, the next one having
    index [j]: what [for j, data := range pieces] has left to send. *)
Fixpoint tag_from (i j : Z) (rest : list (list byte)) : list uploadPiece :=
  match rest with
  | [] => []
  | d :: rest' => mkPiece d i (uint64 j) :: tag_from i (j + 1) rest'
  end.

(** The pieces a read puts up for sending: those of the encoded chunk. *)
Definition queued (f : file) (e : event) : list uploadPiece :=
  match e with
  | EvRead i got (Some EOF) => []
  | EvRead i got (Some (ErrNew _)) => []
  | EvRead i got _ =>
      match Encode (erasureCode f) (fill_chunk (Z.to_nat (chunkSize f)) got) with
      | Ok pieces => tag_from i 0 pieces
      | Err _ => []
      end
  | _ => []
  end.

(** The pieces handed to workers, in the order they were handed out. *)
Definition dispatched (tr : list event) : list uploadPiece :=
  flat_map (fun e => match e with EvDispatch _ req => [req] | _ => [] end) tr.

(** What the dispatcher still has to send of the chunk at hand. *)
Definition waiting (d : dstate) : list uploadPiece :=
  match d with
  | DSend i j rest => tag_from i j rest
  | _ => []
  end.

(** The pieces worker [k] has taken from the request channel. *)
Definition received (k : nat) (tr : list event) : list uploadPiece :=
  flat_map (fun e => match e with
                     | EvDispatch k' req => if Nat.eqb k' k then [req] else []
                     | _ => []
                     end) tr.

(** The pieces worker [k] has passed to [addPiece], whatever the result. *)
Definition offered (k : nat) (tr : list event) : list uploadPiece :=
  flat_map (fun e => match e with
                     | EvAddPiece k' req _ => if Nat.eqb k' k then [req] else []
                     | _ => []
                     end) tr.

(** The piece a worker holds between its receive and its [addPiece] call. *)
Definition holding (pc : wstate) : list uploadPiece :=
  match pc with
  | WAddPiece req => [req]
  | _ => []
  end.

(** A session after [addPiece] has been called on it with each of [ps]. *)
Definition session_after {H} `{!uploader H} (h : H) (ps : list uploadPiece) : H :=
  fold_left (fun h p => (addPiece h p).1) ps h.

(** Every worker has left its loop. *)
Definition all_left {H} (ws : list (@worker H)) : Prop :=
  forall k w, ws !! k = Some w -> left_loop (wpc w) = true.

(** ** Test doubles *)

Module Doubles.

(** An in-memory host: it records the pieces it is given and fails every
    call once its budget, when it has one, is used up. *)
Record testHost := mkTestHost {
  th_ip : string;
  th_pieces : list (Z * Z);
  th_budget : option nat
}.

#[global] Instance testHost_uploader : uploader testHost := {|
  addPiece h p :=
    match th_budget h with
    | Some O => (h, Some (ErrNew "host unreachable"))
    | Some (S n) =>
        (mkTestHost (th_ip h) (th_pieces h ++ [(chunkIndex p, pieceIndex p)]) (Some n), None)
    | None =>
        (mkTestHost (th_ip h) (th_pieces h ++ [(chunkIndex p, pieceIndex p)]) None, None)
    end;
  getFileContract h := mkContract (th_ip h) (th_pieces h)
|}.

(** A stream of bytes that ends cleanly, or with a fault where its bytes run
    out, read as [io.ReadFull] reads. *)
Record byteStream := mkStream {
  bs_rest : list byte;
  bs_fault : option string
}.

Definition bs_end (r : byteStream) (clean : error) : error :=
  match bs_fault r with
  | Some msg => ErrNew msg
  | None => clean
  end.

#[global] Instance byteStream_Reader : Reader byteStream := {|
  io_ReadFull r n :=
    match n, bs_rest r with
    | O, _ => (r, [], None)
    | _, [] => (r, [], Some (bs_end r EOF))
    | _, rest =>
        if (length rest <? n)%nat then
          (mkStream [] (bs_fault r), rest, Some (bs_end r ErrUnexpectedEOF))
        else (mkStream (drop n rest) (bs_fault r), take n rest, None)
    end
|}.

(** A replication code: [n] copies of the chunk, any one of which gives it
    back. *)
Definition repCoder (n : nat) : ErasureCoder :=
  mkCoder (Z.of_nat n) 1 (fun chunk => Ok (replicate n chunk)).

(** A small world: one file on disk with the size the file system reports
    for it, a fixed list of known hosts of which some cannot be reached, and
    a wallet. *)
Record world := mkWorld {
  w_filename : string;
  w_content : list byte;
  w_size : Z;
  w_stat_fails : bool;
  w_hosts : list HostSettings;
  w_unreachable : list string;
  w_balance : Currency;
  w_overhead : Z
}.

Definition world_stat (w : world) : res FileInfo :=
  if w_stat_fails w then Err (ErrNew "stat: no such file")
  else Ok (mkFileInfo (w_size w) 420).

Definition testWorld (w : world) : Collaborators testHost byteStream unit := {|
  os_Open filename :=
    if String.eqb filename (w_filename w) then Ok (mkStream (w_content w) None)
    else Err (ErrNew "open: no such file");
  handle_Stat _ := Ok (mkFileInfo (w_size w) 420);
  os_Stat filename :=
    if String.eqb filename (w_filename w) then world_stat w
    else Err (ErrNew "stat: no such file");
  hostDB_RandomHosts db n := (take (Z.to_nat n) (w_hosts w), db);
  wallet_ConfirmedBalance := w_balance w;
  newHostUploader h totalsize duration key :=
    if bool_decide (IPAddress h ∈ w_unreachable w) then Err (ErrNew "dial failed")
    else Ok (mkTestHost (IPAddress h) [] None);
  rsEncode nData nParity chunk := Ok (replicate (Z.to_nat (nData + nParity)) chunk);
  GenerateTwofishKey := [];
  numChunks f := 1;
  saveFile f := None;
  TwofishOverhead := w_overhead w
|}.

Definition emptyRenter : Renter unit := mkRenter ∅ tt [].

Definition blankFile (ec : ErasureCoder) (psize : Z) : file :=
  mkFile "demo" 0 ∅ [] ec psize 0 0 0.

End Doubles.

(** ** Scenarios *)

Module Scenarios.
Import Doubles.

Definition hostA : testHost := mkTestHost "10.0.0.1:9982" [] None.
Definition hostB : testHost := mkTestHost "10.0.0.2:9982" [] None.

(** A host that refuses the first piece it is given. *)
Definition hostB_down : testHost := mkTestHost "10.0.0.2:9982" [] (Some 0%nat).

(** Pieces of two bytes, two copies per chunk, any one of which gives the
    chunk back: chunks of two bytes. *)
Definition demo_file : file := blankFile (repCoder 2) 2.

(** Three bytes: one full chunk and a short one. *)
Definition demo_stream : byteStream := mkStream [x01; x02; x03] None.

(** A stream whose first read fails. *)
Definition broken_stream : byteStream := mkStream [] (Some "read: input/output error").

(** A complete run with two healthy hosts. *)
Definition healthy_sched : list actor :=
  [Disp; Work 1; Work 0; Disp; Work 0; Disp; Work 0; Work 1; Work 0; Work 1;
   Work 0; Work 1; Work 0; Disp; Work 1; Disp; Work 1; Disp; Work 0; Work 1;
   Work 0; Work 1; Disp]%nat.

Definition healthy_run : option (list event * state) :=
  upload demo_file demo_stream [hostA; hostB] healthy_sched.

Definition healthy_trace : list event :=
  Eval vm_compute in
  match healthy_run with
  | Some (tr, _) => tr
  | None => []
  end.

Definition healthy_final : state :=
  Eval vm_compute in
  match healthy_run with
  | Some (_, s) => s
  | None => upload_init demo_file demo_stream [hostA; hostB]
  end.

(** A complete run in which the second host refuses its first piece. *)
Definition faulty_sched : list actor :=
  [Disp; Work 0; Work 1; Disp; Work 1; Disp; Work 0; Work 0; Work 0; Work 0;
   Work 0; Work 0; Work 0; Disp; Work 0; Disp; Disp; Work 0; Work 1; Work 0;
   Disp]%nat.

Definition faulty_run : option (list event * state) :=
  upload demo_file demo_stream [hostA; hostB_down] faulty_sched.

Definition faulty_trace : list event :=
  Eval vm_compute in
  match faulty_run with
  | Some (tr, _) => tr
  | None => []
  end.

Definition faulty_final : state :=
  Eval vm_compute in
  match faulty_run with
  | Some (_, s) => s
  | None => upload_init demo_file demo_stream [hostA; hostB_down]
  end.

(** The same run stopped when both workers hold a piece of the first chunk. *)
Definition faulty_mid : state :=
  Eval vm_compute in
  match upload demo_file demo_stream [hostA; hostB_down] [Disp; Work 0; Work 1]%nat with
  | Some (_, s) => s
  | None => upload_init demo_file demo_stream [hostA; hostB_down]
  end.

Definition first_piece (j : Z) : uploadPiece := mkPiece [x01; x02] 0 j.

(** Hosts known to the database. *)
Definition known_hosts : list HostSettings :=
  [mkHost "10.0.0.1:9982" 1; mkHost "10.0.0.2:9982" 1; mkHost "10.0.0.3:9982" 1;
   mkHost "10.0.0.4:9982" 1; mkHost "10.0.0.5:9982" 1].

(** Five known hosts, all of which can be reached. *)
Definition world_ok : world :=
  mkWorld "data.bin" [x01; x02; x03] 3 false known_hosts [] 1000000 28.

(** Five known hosts, of which one can be reached. *)
Definition world_few : world :=
  mkWorld "data.bin" [x01; x02; x03] 3 false known_hosts
          ["10.0.0.2:9982"; "10.0.0.3:9982"; "10.0.0.4:9982"; "10.0.0.5:9982"]
          1000000 28.

(** The file is reported as one byte over 5 GiB. *)
Definition world_big : world :=
  mkWorld "data.bin" [x01; x02; x03] (5 * 1024 * 1024 * 1024 + 1) false
          known_hosts [] 1000000 28.

(** The file cannot be found by name any more; hosts store for free. *)
Definition world_gone : world :=
  mkWorld "data.bin" [x01; x02; x03] 3 true
          [mkHost "10.0.0.1:9982" 0; mkHost "10.0.0.2:9982" 0] [] 0 28.

(** Upload [data.bin] under a nickname, everything else left to the defaults. *)
Definition plain_request : FileUploadParams := mkParams "data.bin" 0 "backup.bin" None 0.

(** The same with a three-piece code and a piece size of one byte. *)
Definition odd_request : FileUploadParams :=
  mkParams "data.bin" 0 "backup.bin" (Some (repCoder 3)) 1.

(** A complete run of the pipeline for [odd_request] in [world_ok]: three
    chunks of one byte, three copies each, four sessions. *)
Definition odd_sched : list actor :=
  [Disp; Work 0; Work 0; Work 0; Work 0; Work 0; Work 0; Work 0; Work 0; Work 0;
   Disp; Disp; Work 0; Work 0; Work 0; Work 0; Work 0; Work 0; Work 0; Work 0;
   Work 0; Disp; Disp; Work 0; Work 0; Work 0; Work 0; Work 0; Work 0; Work 0;
   Work 0; Work 0; Disp; Disp; Disp; Work 0; Work 0; Work 1; Work 1; Work 2;
   Work 2; Work 3; Work 3; Disp]%nat.

(** The renter's methods in a world. *)
Definition Upload_in (w : world)
  : FileUploadParams -> list actor -> M unit unit :=
  @Upload testHost byteStream unit _ _ (testWorld w).

Definition Upload_checks_in (w : world)
  : FileUploadParams -> M unit (byteStream * FileUploadParams * ErasureCoder * file) :=
  @Upload_checks testHost byteStream unit (testWorld w).

Definition checkWalletBalance_in (w : world) : FileUploadParams -> M unit unit :=
  @checkWalletBalance testHost byteStream unit (testWorld w).

(** The trace of the run that leads to [faulty_mid]. *)
Definition faulty_mid_trace : list event :=
  Eval vm_compute in
  match upload demo_file demo_stream [hostA; hostB_down] [Disp; Work 0; Work 1]%nat with
  | Some (tr, _) => tr
  | None => []
  end.

(** The refusing host on its own: it has taken the first piece of the first
    chunk and refused it, and the second piece waits. *)
Definition lonely_stuck : state :=
  Eval vm_compute in
  match upload demo_file demo_stream [hostB_down] [Disp; Work 0; Work 0]%nat with
  | Some (_, s) => s
  | None => upload_init demo_file demo_stream [hostB_down]
  end.

(** A code whose encoder fails. *)
Definition badCoder : ErasureCoder :=
  mkCoder 3 1 (fun _ => Err (ErrNew "encode: bad chunk size")).

Definition bad_request : FileUploadParams :=
  mkParams "data.bin" 0 "backup.bin" (Some badCoder) 1.

(** A nickname with another extension than the file. *)
Definition mismatched_request : FileUploadParams :=
  mkParams "data.bin" 0 "backup.txt" None 0.

(** A renter that already has a file under the nickname. *)
Definition taken_renter : Renter unit :=
  mkRenter (<["backup.bin" := demo_file]> ∅) tt [].

(** An empty file, and an empty wallet. *)
Definition world_empty : world :=
  mkWorld "data.bin" [] 0 false known_hosts [] 0 28.

End Scenarios.

(** * Properties of the pipeline *)

Section PipelineProps.
Context {H R : Type} `{!uploader H} `{!Reader R}.

Local Abbreviation St := (@state H R).
Local Abbreviation Wk := (@worker H).

(** ** Runs *)

Lemma run_app (s : St) (a b : list actor) :
  run s (a ++ b) =
  match run s a with
  | Some (t1, s1) =>
      match run s1 b with
      | Some (t2, s2) => Some (t1 ++ t2, s2)
      | None => None
      end
  | None => None
  end.
Proof.
  revert s. induction a as [|x a IH]; intros s; simpl.
  - destruct (run s b) as [[t2 s2]|]; reflexivity.
  - destruct (step s x) as [[e s']|]; [|reflexivity].
    rewrite IH. destruct (run s' a) as [[t1 s1]|]; [|reflexivity].
    destruct (run s1 b) as [[t2 s2]|]; reflexivity.
Qed.

(** A property that holds at the start and is kept by every step holds
    after every run. *)
Lemma run_invariant (P : list event -> St -> Prop) (s0 : St) :
  P [] s0 ->
  (forall tr s a e s', P tr s -> step s a = Some (e, s') -> P (tr ++ [e]) s') ->
  forall sched tr s, run s0 sched = Some (tr, s) -> P tr s.
Proof.
  intros Hinit Hstep sched.
  induction sched as [|a sched IH] using rev_ind; intros tr s Hrun.
  - simpl in Hrun. by simplify_eq.
  - rewrite run_app in Hrun.
    destruct (run s0 sched) as [[t1 s1]|] eqn:E1; [|done].
    simpl in Hrun. destruct (step s1 a) as [[e s']|] eqn:E2; [|done].
    simplify_eq. eapply Hstep; eauto.
Qed.

(** ** What one step does *)

Lemma disp_step_workers (s s' : St) e :
  disp_step s = Some (e, s') -> workers s' = workers s.
Proof.
  unfold disp_step, read_chunk. intros Hs.
  repeat case_match; simplify_eq; reflexivity.
Qed.

Lemma disp_step_event (s s' : St) e :
  disp_step s = Some (e, s') ->
  (forall k, is_contract k e = false /\ is_loop_exit k e = false /\ is_consume k e = false)
  /\ ev_delivered e = 0.
Proof.
  unfold disp_step, read_chunk. intros Hs.
  repeat case_match; simplify_eq; done.
Qed.

Lemma worker_step_workers (s s' : St) k e :
  worker_step s k = Some (e, s') ->
  exists w w', workers s !! k = Some w /\ workers s' = <[k := w']> (workers s)
               /\ wtrans k w e w'.
Proof.
  unfold worker_step. intros Hs.
  destruct (workers s !! k) as [[h pc]|] eqn:Hw; [|done].
  exists (mkWorker h pc). simpl in Hs.
  repeat case_match; simplify_eq; eexists; (split; [done|]); simpl;
    (split; [reflexivity|]); econstructor; eauto.
Qed.


Lemma step_workers (s s' : St) a e :
  step s a = Some (e, s') ->
  (a = Disp /\ workers s' = workers s /\
     (forall k, is_contract k e = false /\ is_loop_exit k e = false /\ is_consume k e = false)
     /\ ev_delivered e = 0)
  \/ (exists k w w', a = Work k /\ workers s !! k = Some w /\
        workers s' = <[k := w']> (workers s) /\ wtrans k w e w').
Proof.
  destruct a as [|k]; simpl; intros Hs.
  - left. pose proof (disp_step_workers _ _ _ Hs).
    pose proof (disp_step_event _ _ _ Hs) as [? ?]. done.
  - right. destruct (worker_step_workers _ _ _ _ Hs) as (w & w' & ? & ? & ?).
    by exists k, w, w'.
Qed.

(** ** Counting events *)

Lemma count_ev_snoc p tr e :
  count_ev p (tr ++ [e]) = (count_ev p tr + (if p e then 1 else 0))%nat.
Proof.
  unfold count_ev. rewrite List.filter_app, length_app. simpl.
  destruct (p e); reflexivity.
Qed.

Lemma wtrans_events k w e w' :
  wtrans k w e w' ->
  forall k', k' <> k ->
    is_contract k' e = false /\ is_loop_exit k' e = false /\ is_consume k' e = false.
Proof.
  intros Ht k' Hne.
  assert (Nat.eqb k k' = false) as Hk by (apply Nat.eqb_neq; congruence).
  destruct Ht; simpl; rewrite ?Hk; done.
Qed.

(** ** Every worker sends one contract *)

Lemma worker_inv_init f (r : R) (hosts : list H) : worker_inv [] (upload_init f r hosts).
Proof.
  intros k w Hw. simpl in Hw.
  apply list_lookup_fmap_Some in Hw as (h & -> & _). done.
Qed.


Lemma worker_inv_step tr (s s' : St) a e :
  worker_inv tr s -> step s a = Some (e, s') -> worker_inv (tr ++ [e]) s'.
Proof.
  intros Hinv Hs k w Hw. unfold contracts_sent, loop_exits.
  rewrite !count_ev_snoc.
  destruct (step_workers _ _ _ _ Hs)
    as [(_ & Hws & Hev & _)|(k0 & w0 & w0' & _ & Hw0 & Hws & Ht)].
  - rewrite Hws in Hw. destruct (Hinv k w Hw) as [Hc Hl].
    destruct (Hev k) as (-> & -> & _).
    unfold contracts_sent, loop_exits in *. lia.
  - rewrite Hws in Hw. destruct (decide (k = k0)) as [->|Hne].
    + rewrite list_lookup_insert_eq in Hw by (by eapply lookup_lt_Some).
      simplify_eq. destruct (Hinv k0 w0 Hw0) as [Hc Hl].
      unfold contracts_sent, loop_exits in *.
      destruct Ht; simpl in *; rewrite ?Nat.eqb_refl; lia.
    + rewrite list_lookup_insert_ne in Hw by done.
      destruct (Hinv k w Hw) as [Hc Hl].
      destruct (wtrans_events _ _ _ _ Ht k Hne) as (-> & -> & _).
      unfold contracts_sent, loop_exits in *. lia.
Qed.

Lemma worker_inv_run f (r : R) (hosts : list H) sched tr s :
  upload f r hosts sched = Some (tr, s) -> worker_inv tr s.
Proof.
  apply (run_invariant worker_inv).
  - apply worker_inv_init.
  - intros. eapply worker_inv_step; eauto.
Qed.


Lemma count_ev_pos p tr :
  (0 < count_ev p tr)%nat <-> exists e, In e tr /\ p e = true.
Proof.
  unfold count_ev. induction tr as [|x tr IH]; simpl.
  - split; [lia|]. intros (e & [] & _).
  - destruct (p x) eqn:Hp; simpl.
    + split; [|lia]. intros _. exists x. auto.
    + rewrite IH. split.
      * intros (e & ? & ?). exists e. auto.
      * intros (e & [->|?] & ?); [congruence|]. exists e. auto.
Qed.

Lemma loop_exit_event k e :
  is_loop_exit k e = true <->
  e = EvRangeEnd k \/ exists req err, e = EvAddPiece k req (Some err).
Proof.
  split.
  - destruct e as [| | | | |k'|k' req [err|]| | |]; simpl; try done;
      intros ->%Nat.eqb_eq; eauto.
  - intros [->|(req & err & ->)]; simpl; apply Nat.eqb_refl.
Qed.

(** ** Full description of a step *)

Lemma worker_step_inv (s s' : St) k e :
  worker_step s k = Some (e, s') ->
  exists w w',
    workers s !! k = Some w /\ wtrans k w e w' /\
    workers s' = <[k := w']> (workers s) /\
    src s' = src s /\ reqClosed s' = reqClosed s /\
    match e with
    | EvRangeEnd _ => reqClosed s = true /\ disp s' = disp s /\ fobj s' = fobj s
    | EvDispatch _ req =>
        reqClosed s = false /\ fobj s' = fobj s /\
        exists i j d rest, disp s = DSend i j (d :: rest) /\
          req = mkPiece d i (uint64 j) /\ disp s' = DSend i (j + 1) rest
    | EvAddPiece _ _ _ => disp s' = disp s /\ fobj s' = fobj s
    | EvBytesCounted _ n =>
        disp s' = disp s /\
        fobj s' = set_bytesUploaded (fobj s) (uint64 (bytesUploaded (fobj s) + n))
    | EvContract _ c =>
        fobj s' = set_contracts (fobj s) (<[IP c := c]> (contracts (fobj s))) /\
        exists n, disp s = DDrain (S n) /\ disp s' = DDrain n
    | _ => False
    end.
Proof.
  unfold worker_step. intros Hs.
  destruct (workers s !! k) as [[h pc]|] eqn:Hw; [|done].
  exists (mkWorker h pc). simpl in Hs.
  repeat case_match; simplify_eq; eexists; (split; [done|]); simpl;
    (split; [econstructor; eauto|]); repeat split; eauto 10.
Qed.

Lemma disp_step_inv (s s' : St) e :
  disp_step s = Some (e, s') ->
  workers s' = workers s /\
  contracts (fobj s') = contracts (fobj s) /\
  bytesUploaded (fobj s') = bytesUploaded (fobj s) /\
  ((exists i, disp s = DRead i /\ reqClosed s' = reqClosed s /\
      (disp s' = DClose \/ (exists err, disp s' = DRet (Some err))
       \/ exists ps, disp s' = DSend i 0 ps))
   \/ (exists i j, disp s = DSend i j [] /\ disp s' = DRead (uint64 (i + 1))
         /\ reqClosed s' = reqClosed s)
   \/ (disp s = DClose /\ disp s' = DDrain (length (workers s)) /\ reqClosed s' = true)
   \/ (disp s = DDrain 0 /\ disp s' = DRet None /\ reqClosed s' = reqClosed s)).
Proof.
  unfold disp_step, read_chunk. intros Hs.
  repeat case_match; simplify_eq; simpl; repeat split; eauto 10.
Qed.

(** ** Sums over the workers *)

Lemma sum_over_insert m (ws : list Wk) k w w' :
  ws !! k = Some w ->
  sum_over m (<[k := w']> ws) = sum_over m ws - m (wpc w) + m (wpc w').
Proof.
  revert k. induction ws as [|x ws IH]; intros [|k] Hk; simpl in *; try done.
  - simplify_eq. lia.
  - rewrite (IH k Hk). lia.
Qed.

Lemma ndone_bounds (ws : list Wk) : 0 <= ndone ws <= len ws.
Proof.
  unfold ndone, len. induction ws as [|x ws IH]; simpl; [lia|].
  destruct (is_done (wpc x)); lia.
Qed.

Lemma ndone_all (ws : list Wk) :
  ndone ws = len ws -> forall k w, ws !! k = Some w -> wpc w = WDone.
Proof.
  unfold ndone, len. induction ws as [|x ws IH]; intros Hn k w Hk; [done|].
  simpl in Hn. pose proof (ndone_bounds ws) as Hb. unfold ndone, len in Hb.
  destruct (is_done (wpc x)) eqn:Hx.
  - destruct k as [|k]; simpl in Hk.
    + simplify_eq. by destruct (wpc w).
    + apply (IH ltac:(lia) k w Hk).
  - lia.
Qed.

Lemma sum_over_init m (hosts : list H) :
  m WRecv = 0 -> sum_over m ((fun h => mkWorker h WRecv) <$> hosts) = 0.
Proof.
  intros Hm. induction hosts as [|h hosts IH]; [done|].
  change (m WRecv + sum_over m ((fun h => mkWorker h WRecv) <$> hosts) = 0). lia.
Qed.

(** ** The orchestrator's count of contracts *)

Lemma phase_inv_init f (r : R) (hosts : list H) : phase_inv (upload_init f r hosts).
Proof. split; [|done]. by apply sum_over_init. Qed.

Lemma phase_inv_step (s s' : St) a e :
  phase_inv s -> step s a = Some (e, s') -> phase_inv s'.
Proof.
  unfold phase_inv. intros Hinv Hs. destruct a as [|k]; simpl in Hs.
  - destruct (disp_step_inv _ _ _ Hs) as (Hws & _ & _ & Hd).
    rewrite Hws.
    destruct Hd as [(i & Hd & Hcl & [Hd'|[(err & Hd')|(ps & Hd')]])
                   |[(i & j & Hd & Hd' & Hcl)|[(Hd & Hd' & Hcl)|(Hd & Hd' & Hcl)]]];
      rewrite Hd in Hinv; rewrite Hd', Hcl; try done.
    split; [|done]. unfold len. lia.
  - destruct (worker_step_inv _ _ _ _ Hs) as (w & w' & Hw & Ht & Hws & _ & Hcl & He).
    unfold ndone, len in *. rewrite Hws, (sum_over_insert _ _ _ _ _ Hw).
    rewrite length_insert, Hcl.
    destruct Ht; simpl in *.
    + destruct He as (Hc & -> & _).
      destruct (disp s) as [| | |n|[]]; destruct Hinv; (split; [lia|congruence]).
    + destruct He as (Hc & _ & i & j & d & rest & Hd & _ & ->).
      rewrite Hd in Hinv. destruct Hinv. split; [lia|congruence].
    + destruct He as (-> & _).
      destruct (disp s) as [| | | |[]]; destruct Hinv; (split; [lia|congruence]).
    + destruct He as (-> & _).
      destruct (disp s) as [| | | |[]]; destruct Hinv; (split; [lia|congruence]).
    + destruct He as (-> & _).
      destruct (disp s) as [| | | |[]]; destruct Hinv; (split; [lia|congruence]).
    + destruct He as (_ & n & Hd & ->). rewrite Hd in Hinv. destruct Hinv.
      split; [lia|congruence].
Qed.

Lemma phase_inv_run f (r : R) (hosts : list H) sched tr s :
  upload f r hosts sched = Some (tr, s) -> phase_inv s.
Proof.
  apply (run_invariant (fun _ s => phase_inv s)).
  - apply phase_inv_init.
  - intros. eapply phase_inv_step; eauto.
Qed.


(** ** The bytes-uploaded counter *)

Lemma delivered_bytes_snoc tr e :
  delivered_bytes (tr ++ [e]) = delivered_bytes tr + ev_delivered e.
Proof.
  unfold delivered_bytes. induction tr as [|x tr IH]; simpl; [lia|].
  rewrite IH. lia.
Qed.

Lemma uint64_add_counted b l x :
  uint64 (uint64 (b + uint64 l) + x) = uint64 (b + l + x).
Proof.
  unfold uint64.
  rewrite Z.add_mod_idemp_l by lia.
  rewrite <- Z.add_assoc, (Z.add_comm b), <- Z.add_assoc.
  rewrite Z.add_mod_idemp_l by lia.
  f_equal. lia.
Qed.

Lemma uint64_congr a b d : uint64 a = uint64 b -> uint64 (a + d) = uint64 (b + d).
Proof.
  unfold uint64. intros Hab.
  rewrite <- (Z.add_mod_idemp_l a), <- (Z.add_mod_idemp_l b) by lia.
  by rewrite Hab.
Qed.

Lemma bytes_inv_step b0 tr (s s' : St) a e :
  bytes_inv b0 tr s -> step s a = Some (e, s') -> bytes_inv b0 (tr ++ [e]) s'.
Proof.
  unfold bytes_inv. intros Hinv Hs. rewrite delivered_bytes_snoc.
  destruct a as [|k]; simpl in Hs.
  - destruct (disp_step_inv _ _ _ Hs) as (-> & _ & -> & _).
    destruct (disp_step_event _ _ _ Hs) as [_ ->].
    by rewrite Z.add_0_r.
  - destruct (worker_step_inv _ _ _ _ Hs) as (w & w' & Hw & Ht & Hws & _ & _ & He).
    unfold in_flight in *. rewrite Hws, (sum_over_insert _ _ _ _ _ Hw).
    assert (forall d x y,
      x = bytesUploaded (fobj s) + sum_over pending (workers s) + d ->
      y = b0 + delivered_bytes tr + d -> uint64 x = uint64 y) as Hclose.
    { intros d x y -> ->. by apply uint64_congr. }
    destruct Ht; simpl in *.
    + destruct He as (_ & _ & ->). apply (Hclose 0); lia.
    + destruct He as (_ & -> & _). apply (Hclose 0); lia.
    + destruct He as (_ & ->). apply (Hclose (len (data req))); lia.
    + destruct He as (_ & ->). apply (Hclose 0); lia.
    + destruct He as (_ & ->). simpl. rewrite uint64_add_counted.
      apply (Hclose 0); lia.
    + destruct He as (-> & _). simpl. apply (Hclose 0); lia.
Qed.

Lemma bytes_inv_run f (r : R) (hosts : list H) sched tr s :
  upload f r hosts sched = Some (tr, s) -> bytes_inv (bytesUploaded f) tr s.
Proof.
  apply (run_invariant (bytes_inv (bytesUploaded f))).
  - unfold bytes_inv, in_flight. simpl. by rewrite sum_over_init.
  - intros. eapply bytes_inv_step; eauto.
Qed.

Lemma counter_in_range f (r : R) (hosts : list H) sched tr s :
  upload f r hosts sched = Some (tr, s) ->
  0 <= bytesUploaded f < 2 ^ 64 ->
  0 <= bytesUploaded (fobj s) < 2 ^ 64.
Proof.
  intros Hrun Hf. revert sched tr s Hrun.
  apply (run_invariant (fun _ s => 0 <= bytesUploaded (fobj s) < 2 ^ 64)); [done|].
  intros tr s a e s' Hinv Hs. destruct a as [|k]; simpl in Hs.
  - by destruct (disp_step_inv _ _ _ Hs) as (_ & _ & -> & _).
  - destruct (worker_step_inv _ _ _ _ Hs) as (w & w' & _ & Ht & _ & _ & _ & He).
    destruct Ht; simpl in *.
    + by destruct He as (_ & _ & ->).
    + by destruct He as (_ & -> & _).
    + by destruct He as (_ & ->).
    + by destruct He as (_ & ->).
    + destruct He as (_ & ->). simpl. unfold uint64. apply Z.mod_pos_bound. lia.
    + by destruct He as (-> & _).
Qed.

Lemma in_flight_all_done (ws : list Wk) :
  (forall k w, ws !! k = Some w -> wpc w = WDone) -> in_flight ws = 0.
Proof.
  unfold in_flight. induction ws as [|x ws IH]; intros Hall; simpl; [done|].
  rewrite (Hall 0%nat x eq_refl). simpl.
  apply IH. intros k w Hk. apply (Hall (S k) w Hk).
Qed.


(** C2: every worker sends exactly one contract before it returns, whether
    it left its loop because the request channel was closed or because
    [addPiece] returned an error.  In every run: a worker has sent at most
    one contract, exactly one once it has returned and none before; it is at
    its send or past it exactly when one of the two exits has happened; and
    at its send, it hands over its contract and returns as soon as the
    orchestrator receives. *)
Theorem uploadWorker_sends_one_contract f (r : R) (hosts : list H) sched tr s k w :
  upload f r hosts sched = Some (tr, s) ->
  workers s !! k = Some w ->
  (contracts_sent k tr <= 1)%nat /\
  (wpc w = WDone -> contracts_sent k tr = 1%nat) /\
  (wpc w <> WDone -> contracts_sent k tr = 0%nat) /\
  ((In (EvRangeEnd k) tr \/ exists req err, In (EvAddPiece k req (Some err)) tr)
   <-> wpc w = WSend \/ wpc w = WDone) /\
  (wpc w = WSend -> forall n, disp s = DDrain (S n) ->
     exists s', step s (Work k) = Some (EvContract k (getFileContract (host w)), s')
                /\ workers s' !! k = Some (mkWorker (host w) WDone)).
Proof.
  intros Hrun Hw.
  destruct (worker_inv_run _ _ _ _ _ _ Hrun k w Hw) as [Hsent Hexit].
  repeat split.
  - rewrite Hsent. destruct (is_done (wpc w)); lia.
  - intros Hd. by rewrite Hsent, Hd.
  - intros Hd. rewrite Hsent. by destruct (wpc w).
  - intros Hev.
    assert (0 < loop_exits k tr)%nat as Hpos.
    { apply count_ev_pos. destruct Hev as [?|(req & err & ?)].
      - exists (EvRangeEnd k). split; [done|]. apply loop_exit_event. by left.
      - exists (EvAddPiece k req (Some err)). split; [done|].
        apply loop_exit_event. right. eauto. }
    rewrite Hexit in Hpos. destruct (wpc w); simpl in Hpos; try lia; auto.
  - intros Hpc.
    assert (0 < loop_exits k tr)%nat as Hpos.
    { rewrite Hexit. destruct Hpc as [-> | ->]; simpl; lia. }
    apply count_ev_pos in Hpos as (e & Hin & [->|(req & err & ->)]%loop_exit_event); eauto.
  - intros Hpc n Hd. simpl. unfold worker_step. rewrite Hw, Hpc, Hd.
    eexists. split; [reflexivity|]. simpl.
    apply list_lookup_insert_eq. by eapply lookup_lt_Some.
Qed.

(** ** After a worker has left its loop *)

Lemma out_of_loop_run (s : St) k sched tr s2 :
  out_of_loop k s -> run s sched = Some (tr, s2) ->
  count_ev (is_consume k) tr = 0%nat /\ out_of_loop k s2.
Proof.
  revert s tr. induction sched as [|a sched IH]; intros s tr Hout Hrun; simpl in Hrun.
  - by simplify_eq.
  - destruct (step s a) as [[e s1]|] eqn:Hs; [|done].
    destruct (run s1 sched) as [[tr1 s3]|] eqn:Hrun1; [|done]. simplify_eq.
    assert (is_consume k e = false /\ out_of_loop k s1) as [He Hout1].
    { destruct Hout as (w & Hw & Hl).
      destruct (step_workers _ _ _ _ Hs)
        as [(_ & Hws & Hev & _)|(k0 & w0 & w0' & _ & Hw0 & Hws & Ht)].
      - split; [apply Hev|]. exists w. by rewrite Hws.
      - destruct (decide (k0 = k)) as [->|Hne].
        + rewrite Hw in Hw0. simplify_eq. destruct Ht; simpl in *; try done.
          split; [done|]. exists (mkWorker h WDone). split; [|done]. rewrite Hws.
          apply list_lookup_insert_eq. by eapply lookup_lt_Some.
        + split; [by apply (wtrans_events _ _ _ _ Ht)|].
          exists w. split; [|done]. by rewrite Hws, list_lookup_insert_ne. }
    destruct (IH _ _ Hout1 Hrun1) as [Hc Hout2]. split; [|done].
    unfold count_ev in *. simpl. by rewrite He.
Qed.

(** C4: the outcome of [addPiece] on a piece a worker has taken.  On
    success the worker goes on to the counter, and from any later state with
    the worker still there it adds the length of the piece to the counter in
    one step and returns to the channel.  On failure the counter is left
    alone, the worker is at its send, and in every continuation it takes no
    further piece, makes no further [addPiece] call and adds nothing to the
    counter. *)
Theorem uploadWorker_piece_outcome (s : St) k w req :
  workers s !! k = Some w ->
  wpc w = WAddPiece req ->
  match addPiece (host w) req with
  | (h', None) =>
      step s (Work k) =
        Some (EvAddPiece k req None, set_worker s k (mkWorker h' (WCount req))) /\
      forall s1 : St, workers s1 !! k = Some (mkWorker h' (WCount req)) ->
        exists s2, step s1 (Work k) = Some (EvBytesCounted k (uint64 (len (data req))), s2)
          /\ bytesUploaded (fobj s2) = uint64 (bytesUploaded (fobj s1) + len (data req))
          /\ workers s2 !! k = Some (mkWorker h' WRecv)
  | (h', Some e) =>
      let s1 := set_worker s k (mkWorker h' WSend) in
      step s (Work k) = Some (EvAddPiece k req (Some e), s1) /\
      bytesUploaded (fobj s1) = bytesUploaded (fobj s) /\
      forall sched tr s2, run s1 sched = Some (tr, s2) ->
        count_ev (is_consume k) tr = 0%nat /\ out_of_loop k s2
  end.
Proof.
  intros Hw Hpc.
  destruct (addPiece (host w) req) as [h' [e|]] eqn:Hadd.
  - repeat split.
    + simpl. unfold worker_step. by rewrite Hw, Hpc, Hadd.
    + eapply out_of_loop_run; [|done].
      exists (mkWorker h' WSend). split; [|done]. simpl.
      apply list_lookup_insert_eq. by eapply lookup_lt_Some.
    + eapply out_of_loop_run; [|done].
      exists (mkWorker h' WSend). split; [|done]. simpl.
      apply list_lookup_insert_eq. by eapply lookup_lt_Some.
  - split.
    + simpl. unfold worker_step. by rewrite Hw, Hpc, Hadd.
    + intros s1 Hw1. eexists. split; [|split].
      * simpl. unfold worker_step. rewrite Hw1. reflexivity.
      * simpl. unfold uint64. rewrite Z.add_mod_idemp_r by lia. done.
      * simpl. apply list_lookup_insert_eq. by eapply lookup_lt_Some.
Qed.

(** ** After the dispatcher has left its chunk loop *)

Lemma worker_step_no_dispatch (s s' : St) k e :
  worker_step s k = Some (e, s') ->
  (forall i j rest, disp s <> DSend i j rest) ->
  is_dispatcher_work e = false /\
  (disp s' = disp s \/ exists n, disp s = DDrain (S n) /\ disp s' = DDrain n).
Proof.
  intros Hs Hnd.
  destruct (worker_step_inv _ _ _ _ Hs) as (w & w' & _ & Ht & _ & _ & _ & He).
  destruct Ht; simpl in *.
  - destruct He as (_ & -> & _). auto.
  - destruct He as (_ & _ & i & j & d & rest' & Hd & _). by destruct (Hnd _ _ _ Hd).
  - destruct He as (-> & _). auto.
  - destruct He as (-> & _). auto.
  - destruct He as (-> & _). auto.
  - destruct He as (_ & n & Hd & Hd'). eauto.
Qed.

(** Once [upload] has returned, the dispatcher does nothing more: no read,
    no piece handed out, no close, no contract received. *)
Lemma returned_run (s : St) err sched tr s2 :
  disp s = DRet err -> run s sched = Some (tr, s2) ->
  disp s2 = DRet err /\ count_ev is_dispatcher_work tr = 0%nat /\
  reqClosed s2 = reqClosed s /\ contracts (fobj s2) = contracts (fobj s).
Proof.
  revert s tr. induction sched as [|a sched IH]; intros s tr Hd Hrun; simpl in Hrun.
  - by simplify_eq.
  - destruct (step s a) as [[e s1]|] eqn:Hs; [|done].
    destruct (run s1 sched) as [[tr1 s3]|] eqn:Hrun1; [|done]. simplify_eq.
    destruct a as [|k]; simpl in Hs.
    + unfold disp_step in Hs. by rewrite Hd in Hs.
    + destruct (worker_step_no_dispatch _ _ _ _ Hs) as [He [Hd1|(n & Hd1 & _)]];
        [by rewrite Hd| |congruence].
      destruct (worker_step_inv _ _ _ _ Hs) as (w & w' & _ & Ht & _ & _ & Hcl & Hev).
      assert (contracts (fobj s1) = contracts (fobj s)) as Hc.
      { destruct Ht; simpl in *.
        - by destruct Hev as (_ & _ & ->).
        - by destruct Hev as (_ & -> & _).
        - by destruct Hev as (_ & ->).
        - by destruct Hev as (_ & ->).
        - by destruct Hev as (_ & ->).
        - destruct Hev as (_ & n & Hn & _). congruence. }
      destruct (IH s1 tr1 ltac:(congruence) Hrun1) as (? & Hc1 & ? & ?).
      repeat split; try congruence.
      unfold count_ev in *. simpl. by rewrite He.
Qed.

Lemma closing_run (s : St) sched tr s2 :
  closing (disp s) -> run s sched = Some (tr, s2) ->
  closing (disp s2) /\ count_ev is_dispatcher_work tr = 0%nat.
Proof.
  revert s tr. induction sched as [|a sched IH]; intros s tr Hd Hrun; simpl in Hrun.
  - by simplify_eq.
  - destruct (step s a) as [[e s1]|] eqn:Hs; [|done].
    destruct (run s1 sched) as [[tr1 s3]|] eqn:Hrun1; [|done]. simplify_eq.
    assert (closing (disp s1) /\ is_dispatcher_work e = false) as [Hd1 He].
    { destruct a as [|k]; simpl in Hs.
      - unfold disp_step in Hs.
        destruct (disp s) as [| | |[|n]|[]] eqn:Hds; simpl in Hd; try done;
          by simplify_eq.
      - destruct (worker_step_no_dispatch _ _ _ _ Hs) as [He [Hd1|(n & _ & Hd1)]].
        + intros i j rest Heq. by rewrite Heq in Hd.
        + by rewrite Hd1.
        + by rewrite Hd1. }
    destruct (IH s1 tr1 Hd1 Hrun1) as [? Hc]. split; [done|].
    unfold count_ev in *. simpl. by rewrite He.
Qed.

(** C5: the three cases of a chunk read.  End of stream sends the
    dispatcher to the close of the request channel, after which it reads and
    hands out nothing more and can only return nil; a full or a short read
    is zero-filled to the chunk size and encoded, its pieces being next to be
    handed out; any other error is returned at once, and nothing is read or
    handed out after it. *)
Theorem upload_read_cases (s : St) i r' got err :
  disp s = DRead i ->
  io_ReadFull (src s) (Z.to_nat (chunkSize (fobj s))) = (r', got, err) ->
  let s1 := mkState r' (disp s) (workers s) (reqClosed s) (fobj s) in
  match err with
  | Some EOF =>
      step s Disp = Some (EvRead i got err, set_disp s1 DClose) /\
      forall sched tr s2, run (set_disp s1 DClose) sched = Some (tr, s2) ->
        count_ev is_dispatcher_work tr = 0%nat /\
        forall e, disp s2 = DRet e -> e = None
  | Some (ErrNew msg) =>
      step s Disp = Some (EvRead i got err, set_disp s1 (DRet (Some (ErrNew msg)))) /\
      forall sched tr s2,
        run (set_disp s1 (DRet (Some (ErrNew msg)))) sched = Some (tr, s2) ->
        count_ev is_dispatcher_work tr = 0%nat /\ disp s2 = DRet (Some (ErrNew msg))
  | Some ErrUnexpectedEOF | None =>
      match Encode (erasureCode (fobj s))
                   (fill_chunk (Z.to_nat (chunkSize (fobj s))) got) with
      | Ok pieces =>
          step s Disp = Some (EvRead i got err, set_disp s1 (DSend i 0 pieces))
      | Err e =>
          step s Disp = Some (EvEncodeError i e, set_disp s1 (DRet (Some e)))
      end
  end.
Proof.
  intros Hd Hread. simpl. unfold disp_step, read_chunk. rewrite Hd, Hread.
  destruct err as [[| |msg]|].
  - split; [done|]. intros sched tr s2 Hrun.
    eapply closing_run in Hrun as [Hc Hn]; [|exact I]. split; [done|].
    intros e He. rewrite He in Hc. by destruct e.
  - by destruct (Encode _ _).
  - split; [done|]. intros sched tr s2 Hrun.
    eapply returned_run in Hrun as (? & ? & _); [|reflexivity]. done.
  - by destruct (Encode _ _).
Qed.

(** ** A fatal error in the chunk loop *)

Lemma ndone_none (ws : list Wk) :
  ndone ws = 0 -> forall k w, ws !! k = Some w -> wpc w <> WDone.
Proof.
  unfold ndone. induction ws as [|x ws IH]; intros Hn k w Hk; [done|].
  simpl in Hn. pose proof (ndone_bounds ws) as Hb. unfold ndone in Hb.
  destruct (is_done (wpc x)) eqn:Hx; [lia|].
  destruct k as [|k]; simpl in Hk.
  - simplify_eq. intros Hd. by rewrite Hd in Hx.
  - apply (IH ltac:(lia) k w Hk).
Qed.

(** When [upload] has returned an error, the request channel is open, no
    contract has been received and no worker has returned. *)
Lemma upload_abort_state f (r : R) (hosts : list H) sched tr s e :
  upload f r hosts sched = Some (tr, s) ->
  disp s = DRet (Some e) ->
  reqClosed s = false /\
  (forall k w, workers s !! k = Some w -> wpc w <> WDone /\ contracts_sent k tr = 0%nat).
Proof.
  intros Hrun Hd.
  pose proof (phase_inv_run _ _ _ _ _ _ Hrun) as Hp. unfold phase_inv in Hp.
  rewrite Hd in Hp. destruct Hp as [Hn Hc]. split; [done|].
  intros k w Hw. pose proof (ndone_none _ Hn k w Hw) as Hnd. split; [done|].
  destruct (worker_inv_run _ _ _ _ _ _ Hrun k w Hw) as [-> _].
  by destruct (wpc w).
Qed.

(** And it stays so: however the workers go on, the channel is never
    closed, so that none of them ever returns. *)
Lemma upload_abort_forever f (r : R) (hosts : list H) sched tr s e more tr' s' :
  upload f r hosts sched = Some (tr, s) ->
  disp s = DRet (Some e) ->
  run s more = Some (tr', s') ->
  reqClosed s' = false /\
  (forall k w, workers s' !! k = Some w -> wpc w <> WDone).
Proof.
  intros Hrun Hd Hmore.
  assert (upload f r hosts (sched ++ more) = Some (tr ++ tr', s')) as Hrun'.
  { unfold upload in *. by rewrite run_app, Hrun, Hmore. }
  destruct (returned_run _ _ _ _ _ Hd Hmore) as (Hd' & _).
  destruct (upload_abort_state _ _ _ _ _ _ _ Hrun' Hd') as [Hc Hw].
  split; [done|]. intros k w Hk. by destruct (Hw k w Hk).
Qed.

(** ** The contract map *)

Section Identities.
(** A session is bound to one host: [addPiece] does not change the identity
    under which its contract is filed. *)
Hypothesis addPiece_keeps_identity :
  forall (h : H) (p : uploadPiece), hostIP (addPiece h p).1 = hostIP h.

Lemma wtrans_identity k (w w' : Wk) e :
  wtrans k w e w' -> hostIP (host w') = hostIP (host w).
Proof.
  intros Ht. destruct Ht as [| |h req h' Hadd|h req h' err Hadd| |]; simpl; try done.
  - by rewrite <- (addPiece_keeps_identity h req), Hadd.
  - by rewrite <- (addPiece_keeps_identity h req), Hadd.
Qed.

Lemma wtrans_not_done k (w w' : Wk) e : wtrans k w e w' -> wpc w <> WDone.
Proof. by destruct 1. Qed.

Lemma ips_inv_step (hosts : list H) (s s' : St) a e :
  ips_inv hosts s -> step s a = Some (e, s') -> ips_inv hosts s'.
Proof.
  unfold ips_inv. intros Hinv Hs.
  destruct (step_workers _ _ _ _ Hs)
    as [(_ & -> & _)|(k & w & w' & _ & Hw & -> & Ht)]; [done|].
  rewrite list_fmap_insert, (wtrans_identity _ _ _ _ Ht), <- Hinv.
  apply list_insert_id. by rewrite list_lookup_fmap, Hw.
Qed.

Lemma contracts_inv_step (hosts : list H) m0 (s s' : St) a e :
  NoDup (hostIP <$> hosts) ->
  ips_inv hosts s -> contracts_inv m0 s -> step s a = Some (e, s') ->
  contracts_inv m0 s'.
Proof.
  intros Hnd Hips [HB1 HB2] Hs. destruct a as [|k]; simpl in Hs.
  - destruct (disp_step_inv _ _ _ Hs) as (Hws & Hc & _).
    split.
    + intros k w Hw Hd. rewrite Hc. rewrite Hws in Hw. by apply (HB1 k).
    + intros ip Hip. rewrite Hc. apply HB2. intros k w Hw. apply (Hip k). by rewrite Hws.
  - destruct (worker_step_inv _ _ _ _ Hs) as (w & w' & Hw & Ht & Hws & _ & _ & He).
    pose proof (wtrans_not_done _ _ _ _ Ht) as Hnot.
    assert (forall k1 w1, k1 <> k -> workers s' !! k1 = Some w1 ->
                          workers s !! k1 = Some w1) as Hother.
    { intros k1 w1 Hne. by rewrite Hws, list_lookup_insert_ne. }
    assert (forall k1 w1, workers s !! k1 = Some w1 -> wpc w1 = WDone ->
                          workers s' !! k1 = Some w1 /\ k1 <> k) as Hkeep.
    { intros k1 w1 Hw1 Hd. assert (k1 <> k) by (intros ->; congruence).
      by rewrite Hws, list_lookup_insert_ne. }
    assert (workers s' !! k = Some w') as Hw'.
    { rewrite Hws. apply list_lookup_insert_eq. by eapply lookup_lt_Some. }
    assert (wpc w' = WDone \/ wpc w' <> WDone) as [Hdone|Hnd']
      by (destruct (wpc w'); (by left) || (by right)).
    + (* the worker has sent its contract *)
      destruct Ht; simpl in *; try done.
      destruct He as (Hf & _). unfold contracts_inv. rewrite Hf. simpl. split.
      * intros k1 w1 Hw1 Hd1. destruct (decide (k1 = k)) as [->|Hne].
        -- rewrite Hw' in Hw1. simplify_eq. simpl. apply lookup_insert_eq.
        -- pose proof (Hother _ _ Hne Hw1) as Hw1s.
           rewrite lookup_insert_ne; [by apply (HB1 k1)|].
           intros Heq. apply Hne.
           apply (NoDup_lookup (hostIP <$> hosts) k1 k (hostIP (host w1))); [done|..].
           ++ rewrite <- Hips. by rewrite list_lookup_fmap, Hw1s.
           ++ rewrite <- Hips. rewrite list_lookup_fmap, Hw. simpl. by rewrite <- Heq.
      * intros ip Hip. rewrite lookup_insert_ne.
        -- apply HB2. intros k1 w1 Hw1 Hd1.
           destruct (Hkeep _ _ Hw1 Hd1) as [Hw1' _]. by apply (Hip k1).
        -- apply (Hip k _ Hw' eq_refl).
    + (* any other move *)
      assert (contracts (fobj s') = contracts (fobj s)) as Hc.
      { destruct Ht; simpl in *; try done.
        - by destruct He as (_ & _ & ->).
        - by destruct He as (_ & -> & _).
        - by destruct He as (_ & ->).
        - by destruct He as (_ & ->).
        - by destruct He as (_ & ->). }
      unfold contracts_inv. rewrite Hc. split.
      * intros k1 w1 Hw1 Hd1. destruct (decide (k1 = k)) as [->|Hne].
        -- rewrite Hw' in Hw1. by simplify_eq.
        -- apply (HB1 k1); [by apply Hother|done].
      * intros ip Hip. apply HB2. intros k1 w1 Hw1 Hd1.
        destruct (Hkeep _ _ Hw1 Hd1) as [Hw1' _]. by apply (Hip k1).
Qed.

Lemma contracts_inv_run f (r : R) (hosts : list H) sched tr s :
  NoDup (hostIP <$> hosts) ->
  upload f r hosts sched = Some (tr, s) ->
  ips_inv hosts s /\ contracts_inv (contracts f) s.
Proof.
  intros Hnd.
  apply (run_invariant (fun _ s => ips_inv hosts s /\ contracts_inv (contracts f) s)).
  - split.
    + unfold ips_inv. simpl. rewrite <- list_fmap_compose. done.
    + split.
      * intros k w Hw. simpl in Hw.
        apply list_lookup_fmap_Some in Hw as (h & -> & _). done.
      * done.
  - intros tr' s1 a e s2 [Hips Hc] Hs. split.
    + eapply ips_inv_step; eauto.
    + eapply contracts_inv_step; eauto.
Qed.


Lemma delivered_bytes_nonneg tr : 0 <= delivered_bytes tr.
Proof.
  unfold delivered_bytes. induction tr as [|e tr IH]; simpl; [lia|].
  destruct e as [| | | | | |k req [err|]| | |]; simpl; unfold len; lia.
Qed.

Lemma all_returned (s : St) :
  phase_inv s -> disp s = DRet None ->
  forall k w, workers s !! k = Some w -> wpc w = WDone.
Proof.
  unfold phase_inv. intros Hp Hd. rewrite Hd in Hp. destruct Hp as [Hn _].
  by apply ndone_all.
Qed.

(** C3: for sessions with pairwise distinct identities whose [addPiece]
    calls all succeed, when [upload] has returned nil on a fresh file record
    the contract map has exactly one entry per session, filed under that
    session's identity, and the bytes-uploaded counter is the sum of the
    lengths of the pieces delivered to hosts (as a 64-bit counter: the sum
    itself whenever it fits in 64 bits). *)
Theorem upload_contracts_and_bytes f (r : R) (hosts : list H) sched tr s :
  NoDup (hostIP <$> hosts) ->
  contracts f = ∅ ->
  bytesUploaded f = 0 ->
  all_succeed tr ->
  upload f r hosts sched = Some (tr, s) ->
  disp s = DRet None ->
  size (contracts (fobj s)) = length hosts /\
  dom (contracts (fobj s)) = list_to_set (hostIP <$> hosts) /\
  (forall h, h ∈ hosts ->
     exists c, contracts (fobj s) !! hostIP h = Some c /\ IP c = hostIP h) /\
  bytesUploaded (fobj s) = uint64 (delivered_bytes tr) /\
  (delivered_bytes tr < 2 ^ 64 -> bytesUploaded (fobj s) = delivered_bytes tr).
Proof.
  intros Hnd Hempty Hzero _ Hrun Hret.
  pose proof (phase_inv_run _ _ _ _ _ _ Hrun) as Hphase.
  pose proof (all_returned _ Hphase Hret) as Hall.
  destruct (contracts_inv_run _ _ _ _ _ _ Hnd Hrun) as [Hips [HB1 HB2]].
  rewrite Hempty in HB2.
  assert (forall h, h ∈ hosts ->
            exists c, contracts (fobj s) !! hostIP h = Some c /\ IP c = hostIP h) as Hentry.
  { intros h [k Hk]%list_elem_of_lookup.
    assert ((hostIP <$> hosts) !! k = Some (hostIP h)) as Hik
      by (by rewrite list_lookup_fmap, Hk).
    rewrite <- Hips, list_lookup_fmap in Hik.
    destruct (workers s !! k) as [w|] eqn:Hw; [|done]. simpl in Hik.
    injection Hik as Hik. exists (getFileContract (host w)). rewrite <- Hik.
    split; [|done]. apply (HB1 k w Hw). by apply (Hall k). }
  assert (dom (contracts (fobj s)) = list_to_set (hostIP <$> hosts)) as Hdom.
  { apply set_eq. intros ip. rewrite elem_of_dom, elem_of_list_to_set. split.
    - intros [c Hc]. destruct (decide (ip ∈ hostIP <$> hosts)) as [|Hnot]; [done|].
      rewrite HB2, lookup_empty in Hc; [done|].
      intros k w Hw _ Heq. apply Hnot. rewrite <- Hips.
      apply list_elem_of_lookup. exists k. by rewrite list_lookup_fmap, Hw, <- Heq.
    - intros (h & -> & Hh)%list_elem_of_fmap.
      destruct (Hentry h Hh) as (c & Hc & _). by exists c. }
  split; [|split; [done|split; [done|]]].
  - rewrite <- size_dom, Hdom, size_list_to_set by done. by rewrite length_fmap.
  - pose proof (bytes_inv_run _ _ _ _ _ _ Hrun) as Hb. unfold bytes_inv in Hb.
    rewrite (in_flight_all_done _ Hall), Hzero, Z.add_0_r, Z.add_0_l in Hb.
    pose proof (counter_in_range _ _ _ _ _ _ Hrun ltac:(rewrite Hzero; lia)) as Hrange.
    assert (bytesUploaded (fobj s) = uint64 (delivered_bytes tr)) as Hcount.
    { rewrite <- Hb. unfold uint64. by rewrite Z.mod_small. }
    split; [done|]. intros Hfit. rewrite Hcount. unfold uint64.
    apply Z.mod_small. pose proof (delivered_bytes_nonneg tr). lia.
Qed.

End Identities.

End PipelineProps.

(** * Properties of the renter *)

Section RenterProps.
Context {H R DB : Type} `{!uploader H} `{!Reader R} `{!Collaborators H R DB}.
Local Open Scope renter_scope.

Local Abbreviation Rn := (Renter DB).

(** ** What a computation adds to the log *)

Lemma logs_ret {A} (P : effect -> Prop) (Q : A -> Prop) (a : A) :
  Q a -> logs (DB := DB) P Q (ret a).
Proof.
  intros Ha st. exists []. simpl. rewrite app_nil_r.
  split; [done|split; [done|]]. by intros ? [= <-].
Qed.

Lemma logs_fail {A} (P : effect -> Prop) (Q : A -> Prop) e :
  logs (DB := DB) P Q (fail e).
Proof. intros st. exists []. simpl. rewrite app_nil_r. by split; [|split]. Qed.

Lemma logs_panic {A} (P : effect -> Prop) (Q : A -> Prop) :
  logs (DB := DB) (A := A) P Q panic.
Proof. intros st. exists []. simpl. rewrite app_nil_r. by split; [|split]. Qed.

Lemma logs_emit (P : effect -> Prop) x :
  P x -> logs (DB := DB) P (fun _ => True) (emit x).
Proof.
  intros Hx st. exists [x]. simpl. split; [done|split; [|done]].
  by constructor.
Qed.

Lemma logs_bind {A B} (P : effect -> Prop) (Q : A -> Prop) (Q' : B -> Prop)
    (m : M DB A) (k : A -> M DB B) :
  logs P Q m -> (forall a, Q a -> logs P Q' (k a)) -> logs P Q' (bind m k).
Proof.
  intros Hm Hk st. unfold bind.
  destruct (Hm st) as (l & Hl & HP & HQ).
  destruct (m st) as [[a| | |] st1] eqn:Hst; simpl in *.
  - destruct (Hk a (HQ a eq_refl) st1) as (l' & Hl' & HP' & HQ').
    exists (l ++ l'). rewrite Hl', Hl, app_assoc. split; [done|split; [|done]].
    by apply Forall_app.
  - exists l. by split; [|split].
  - exists l. by split; [|split].
  - exists l. by split; [|split].
Qed.

Lemma logs_weaken {A} (P : effect -> Prop) (Q Q' : A -> Prop) (m : M DB A) :
  logs P Q m -> (forall a, Q a -> Q' a) -> logs P Q' m.
Proof.
  intros Hm HQ st. destruct (Hm st) as (l & Hl & HP & Hq).
  exists l. split; [done|split; [done|]]. intros a Ha. by apply HQ, Hq.
Qed.


Lemma logs_try {A} (P : effect -> Prop) (r : res A) :
  logs (DB := DB) P (fun _ => True) (try r).
Proof. destruct r; [by apply logs_ret|apply logs_fail]. Qed.

Lemma logs_call {A} (P : effect -> Prop) x (r : res A) :
  P x -> logs (DB := DB) P (fun _ => True) (do_ emit x; try r).
Proof.
  intros Hx. eapply logs_bind; [by apply logs_emit|]. intros _ _. apply logs_try.
Qed.

Lemma logs_RandomHosts (P : effect -> Prop) n :
  P (FxRandomHosts n) -> logs P (fun _ => True) (call_RandomHosts n).
Proof.
  intros Hx. unfold call_RandomHosts.
  eapply logs_bind; [by apply logs_emit|]. intros _ _ st.
  exists []. destruct (hostDB_RandomHosts (hostDB st) n) as [hosts db'] eqn:Hr.
  simpl. rewrite app_nil_r. by split; [|split].
Qed.

Lemma logs_coder (P : effect -> Prop) up :
  logs (DB := DB) P (fun ec => ErasureCode up = Some ec) (coder up).
Proof.
  unfold coder. destruct (ErasureCode up); [by apply logs_ret|apply logs_panic].
Qed.

Lemma checkWalletBalance_logs up ec :
  ErasureCode up = Some ec ->
  logs (balance_event up ec) (fun _ => True) (checkWalletBalance up).
Proof.
  intros Hec. unfold checkWalletBalance, call_os_Stat, call_ConfirmedBalance.
  eapply logs_bind; [by apply logs_call|]. intros fi _.
  eapply logs_bind; [apply logs_coder|]. intros ec' Hec'. simpl in Hec'.
  assert (ec' = ec) as -> by congruence.
  eapply logs_bind; [by apply logs_RandomHosts|]. intros hosts _.
  destruct (len hosts =? 0); [apply logs_fail|].
  eapply (logs_bind _ (fun _ => True)).
  - eapply logs_bind; [by apply logs_emit|]. intros _ _. by apply logs_ret.
  - intros bal _. destruct (_ >? 0); [apply logs_fail|by apply logs_ret].
Qed.


Lemma Forall_map_all {A} (P : effect -> Prop) (f : A -> effect) (l : list A) :
  (forall a, P (f a)) -> Forall P (map f l).
Proof. intros HP. induction l; simpl; constructor; auto. Qed.

Lemma logs_mono {A} (P P' : effect -> Prop) (Q : A -> Prop) (m : M DB A) :
  logs P Q m -> (forall x, P x -> P' x) -> logs P' Q m.
Proof.
  intros Hm HP st. destruct (Hm st) as (l & Hl & Hf & Hq).
  exists l. split; [done|split; [|done]]. eapply Forall_impl; eauto.
Qed.

Lemma logs_get_files (P : effect -> Prop) :
  logs (DB := DB) P (fun _ => True) get_files.
Proof. intros st. exists []. simpl. rewrite app_nil_r. by split; [|split]. Qed.

Lemma logs_put_files (P : effect -> Prop) m :
  logs (DB := DB) P (fun _ => True) (put_files m).
Proof. intros st. exists []. simpl. rewrite app_nil_r. by split; [|split]. Qed.

(** The piece size [Upload] settles on, given the caller's. *)
Lemma fill_defaults_logs up fi :
  logs (checks_event up)
       (fun up' => ErasureCode up' = Some (effective_code up) /\
                   Filename up' = Filename up /\ Nickname up' = Nickname up /\
                   (PieceSize up = 0 ->
                    PieceSize up' = defaultPieceSize \/ PieceSize up' = smallPieceSize) /\
                   (PieceSize up <> 0 -> PieceSize up' = PieceSize up))
       (fill_defaults up fi).
Proof.
  unfold fill_defaults, effective_code.
  eapply (logs_bind _ (fun c => c = Some (effective_code up))).
  - unfold effective_code. destruct (ErasureCode up) as [ec|] eqn:Hec.
    + by apply logs_ret.
    + eapply logs_bind; [apply logs_emit; by simpl|]. intros _ _. by apply logs_ret.
  - intros c ->. apply logs_ret. simpl. repeat split; try done.
    + intros ->. simpl. destruct (Size fi >? defaultPieceSize); auto.
    + intros Hne. by apply Z.eqb_neq in Hne as ->.
Qed.

Lemma Upload_checks_logs up :
  logs (checks_event up)
       (fun '(handle, up', ec, f) =>
          ec = effective_code up /\ Nickname up' = Nickname up /\
          pieceSize f = PieceSize up' /\ erasureCode f = ec /\
          masterKey f = GenerateTwofishKey /\
          contracts f = ∅ /\ bytesUploaded f = 0 /\
          (PieceSize up = 0 ->
           pieceSize f = defaultPieceSize \/ pieceSize f = smallPieceSize) /\
          (PieceSize up <> 0 -> pieceSize f = PieceSize up))
       (Upload_checks up).
Proof.
  unfold Upload_checks.
  destruct (negb _); [apply logs_fail|].
  eapply logs_bind; [by apply logs_call|]. intros handle _.
  eapply logs_bind; [apply logs_get_files|]. intros table _.
  destruct (bool_decide _); [apply logs_fail|].
  eapply logs_bind; [by apply logs_call|]. intros fi _.
  destruct (Size fi >? _); [apply logs_fail|].
  eapply logs_bind; [apply fill_defaults_logs|].
  intros up' (Hec & Hfn & Hnn & Hp0 & Hp1).
  eapply (logs_bind _ (fun _ => True)).
  - eapply logs_mono; [by apply checkWalletBalance_logs|].
    intros x Hx. destruct x; simpl in *; try done. congruence.
  - intros _ _. eapply logs_bind; [apply logs_coder|]. intros ec Hec'. simpl in Hec'.
    apply logs_ret. simpl. repeat split; try done; congruence.
Qed.

Lemma connect_hosts_spec cands totalsize duration key (st : Rn) :
  connect_hosts cands totalsize duration key st =
  (Returned (sessions cands totalsize duration key),
   mkRenter (files st) (hostDB st)
            (rlog st ++ map (fun h => FxNewHostUploader h totalsize duration) cands)).
Proof.
  revert st. induction cands as [|h cands IH]; intros st; simpl.
  - unfold ret. rewrite app_nil_r. by destruct st.
  - unfold bind, emit. simpl.
    destruct (newHostUploader h totalsize duration key) as [session|e].
    + rewrite IH. simpl. unfold ret. by rewrite <- app_assoc.
    + rewrite IH. simpl. by rewrite <- app_assoc.
Qed.

Lemma logs_connect_hosts (P : effect -> Prop) cands totalsize duration key :
  (forall h, P (FxNewHostUploader h totalsize duration)) ->
  logs P (fun hosts => hosts = sessions cands totalsize duration key)
       (connect_hosts cands totalsize duration key).
Proof.
  intros HP st. rewrite connect_hosts_spec. simpl. eexists. split; [done|].
  split; [|by intros ? [= <-]].
  by apply Forall_map_all.
Qed.

Lemma logs_deferred {A} (P : effect -> Prop) (Q : A -> Prop) n (body : M DB A) :
  logs P Q body -> (forall i, P (FxClose i)) -> logs P Q (with_deferred_Close n body).
Proof.
  intros Hb HP st. unfold with_deferred_Close.
  destruct (Hb st) as (l & Hl & Hf & Hq).
  assert (Forall P (map FxClose (rev (seq 0 n)))) as Hcl.
  { by apply Forall_map_all. }
  destruct (body st) as [[a| | |] st1]; simpl in *.
  - exists (l ++ map FxClose (rev (seq 0 n))). rewrite Hl, app_assoc.
    split; [done|split; [by apply Forall_app|done]].
  - exists (l ++ map FxClose (rev (seq 0 n))). rewrite Hl, app_assoc.
    split; [done|split; [by apply Forall_app|done]].
  - exists (l ++ map FxClose (rev (seq 0 n))). rewrite Hl, app_assoc.
    split; [done|split; [by apply Forall_app|done]].
  - exists l. by split; [|split].
Qed.

Lemma logs_call_upload (P : effect -> Prop) nickname f handle hosts sched :
  (forall e, P (FxPipeline e)) ->
  logs (DB := DB) P (fun _ => True) (call_upload nickname f handle hosts sched).
Proof.
  intros HP st. unfold call_upload.
  destruct (upload f handle hosts sched) as [[tr s]|].
  - assert (Forall P (map FxPipeline tr)) as Hf.
    { by apply Forall_map_all. }
    exists (map FxPipeline tr). destruct (disp s); simpl; by split; [|split].
  - exists []. simpl. rewrite app_nil_r. by split; [|split].
Qed.

Lemma Upload_logs up sched :
  logs (request_is (requested_hosts (effective_code up))) (fun _ => True)
       (Upload up sched).
Proof.
  unfold Upload.
  eapply logs_bind.
  { eapply logs_mono; [apply Upload_checks_logs|].
    intros x Hx. destruct x; simpl in *; done. }
  intros [[[handle up'] ec] f] (-> & _).
  eapply (logs_bind _ (fun _ => True)).
  { unfold Upload_connect.
    eapply (logs_bind _ (fun _ => True)); [by apply logs_RandomHosts|].
    intros cands _. eapply logs_weaken; [by apply logs_connect_hosts|done]. }
  intros hosts _. apply logs_deferred; [|done].
  unfold Upload_transfer. destruct (_ <? _); [apply logs_fail|].
  eapply logs_bind; [apply logs_get_files|]. intros table _.
  eapply logs_bind; [apply logs_put_files|]. intros _ _.
  eapply logs_bind; [by apply logs_emit|]. intros _ _.
  eapply logs_bind; [by apply logs_call_upload|]. intros [err f'] _.
  destruct err.
  - eapply logs_bind; [apply logs_get_files|]. intros table' _.
    eapply logs_bind; [apply logs_put_files|]. intros _ _.
    eapply logs_bind; [by apply logs_emit|]. intros _ _. apply logs_fail.
  - unfold call_saveFile. eapply logs_bind; [by apply logs_emit|]. intros _ _.
    destruct (saveFile f'); [apply logs_fail|by apply logs_ret].
Qed.


(** ** The size of the host sample *)

Lemma host_requests_app l l' :
  host_requests (l ++ l') = host_requests l ++ host_requests l'.
Proof.
  induction l as [|x l IH]; simpl; [done|].
  destruct x; simpl; by rewrite ?IH.
Qed.

Lemma host_requests_all n l :
  Forall (request_is n) l -> forall n', In n' (host_requests l) -> n' = n.
Proof.
  induction 1 as [|x l Hx _ IH]; simpl; [done|].
  destruct x; simpl in *; auto. intros n' [<-|Hin]; auto.
Qed.

Lemma requested_hosts_floor ec :
  0 <= NumPieces ec -> NumPieces ec * 3 < 2 ^ 63 ->
  requested_hosts ec = NumPieces ec * 3 / 2.
Proof.
  intros Hge Hlt. unfold requested_hosts, int64.
  rewrite Z.mod_small by lia.
  replace (NumPieces ec * 3 + 2 ^ 63 - 2 ^ 63) with (NumPieces ec * 3) by lia.
  apply Z.quot_div_nonneg; lia.
Qed.

Lemma ceil_one_and_a_half_spec n :
  ceil_one_and_a_half n = n * 3 / 2 + (if Z.odd n then 1 else 0).
Proof.
  unfold ceil_one_and_a_half, Qceiling, Qfloor. simpl.
  replace (Z.pos (1 * 2)) with 2 by done.
  destruct (Z.odd n) eqn:Hodd.
  - apply Z.odd_spec in Hodd as [m ->].
    replace (- ((2 * m + 1) * 3)) with ((-3 * m - 2) * 2 + 1) by lia.
    replace ((2 * m + 1) * 3) with ((3 * m + 1) * 2 + 1) by lia.
    rewrite !Z.div_add_l by lia. change (1 / 2) with 0. lia.
  - rewrite <- Z.negb_even in Hodd. apply negb_false_iff, Z.even_spec in Hodd as [m ->].
    replace (- (2 * m * 3)) with ((-3 * m) * 2) by lia.
    replace (2 * m * 3) with ((3 * m) * 2) by lia.
    rewrite !Z.div_mul by lia. lia.
Qed.

(** C7, as the code has it: the number of candidates asked of the host
    database, by the balance check and by the host selection of [Upload]
    alike, is [NumPieces * 3 / 2] in integer arithmetic, that is
    [floor(numPieces * 1.5)]; this is [ceil(numPieces * 1.5)] when the number
    of pieces is even and one less when it is odd. *)
Theorem host_sample_is_floor up sched (st : Rn) :
  let ec := effective_code up in
  0 <= NumPieces ec -> NumPieces ec * 3 < 2 ^ 63 ->
  (exists l, rlog (Upload up sched st).2 = rlog st ++ l /\
     forall n, In n (host_requests l) -> n = NumPieces ec * 3 / 2) /\
  (exists l, rlog (checkWalletBalance up st).2 = rlog st ++ l /\
     forall n, In n (host_requests l) -> n = NumPieces ec * 3 / 2) /\
  NumPieces ec * 3 / 2
    = ceil_one_and_a_half (NumPieces ec) - (if Z.odd (NumPieces ec) then 1 else 0).
Proof.
  intros ec Hge Hlt. rewrite <- (requested_hosts_floor ec Hge Hlt).
  split; [|split].
  - destruct (Upload_logs up sched st) as (l & Hl & Hf & _).
    exists l. split; [done|]. by apply host_requests_all.
  - destruct (ErasureCode up) as [ec'|] eqn:Hec.
    + destruct (checkWalletBalance_logs up ec' Hec st) as (l & Hl & Hf & _).
      exists l. split; [done|]. apply host_requests_all.
      eapply Forall_impl; [exact Hf|]. intros x Hx.
      assert (ec = ec') as -> by (unfold ec, effective_code; by rewrite Hec).
      destruct x; simpl in *; done.
    + unfold checkWalletBalance, call_os_Stat, coder, bind, emit, try, panic.
      rewrite Hec. simpl.
      destruct (os_Stat (Filename up)); simpl;
        exists [FxStat (Filename up)]; by split.
  - rewrite (requested_hosts_floor ec Hge Hlt), ceil_one_and_a_half_spec. lia.
Qed.


(** ** The balance check *)

(** The outcome of the balance check, spelled out. *)
Lemma checkWalletBalance_result up ec (st : Rn) :
  ErasureCode up = Some ec ->
  let hosts := (hostDB_RandomHosts (hostDB st) (requested_hosts ec)).1 in
  let total := fold_left (fun acc h => acc + Price h) hosts 0 in
  let out := checkWalletBalance up st in
  files out.2 = files st /\
  out.1 =
    match os_Stat (Filename up) with
    | Err e => Failed e
    | Ok fi =>
        if len hosts =? 0 then Failed (ErrNew "no hosts!")
        else if 2 * ((total / uint64 (len hosts)) * uint64 (Duration up) * uint64 (Size fi))
                  >? wallet_ConfirmedBalance
             then Failed (ErrNew "insufficient balance for upload")
             else Returned tt
    end.
Proof.
  intros Hec. simpl.
  unfold checkWalletBalance, call_os_Stat, call_RandomHosts,
    call_ConfirmedBalance, coder, bind, emit, try, ret, fail, errors_New.
  rewrite Hec. simpl.
  destruct (os_Stat (Filename up)) as [fi|e]; simpl; [|done].
  fold (requested_hosts ec).
  destruct (hostDB_RandomHosts (hostDB st) (requested_hosts ec)) as [hs db']. simpl.
  destruct (len hs =? 0); simpl; [done|].
  unfold NewCurrency64, Currency_Mul, Currency_Div, Currency_Add.
  match goal with |- context [Currency_Cmp ?a ?b >? 0] =>
    replace (Currency_Cmp a b >? 0) with (a >? b)
      by (unfold Currency_Cmp, Z.gtb; by destruct (a ?= b))
  end.
  rewrite (Z.mul_comm 2). by destruct (_ >? _).
Qed.

(** C8, as the code has it: [checkWalletBalance] returns an error exactly
    when the stat of the file fails, or the host sample is empty, or twice
    the average sampled price times the duration times the file size exceeds
    the confirmed balance; otherwise it returns nil.  It makes no upload
    traffic and leaves the file table alone. *)
Theorem checkWalletBalance_error_iff up ec (st : Rn) :
  ErasureCode up = Some ec ->
  let hosts := (hostDB_RandomHosts (hostDB st) (requested_hosts ec)).1 in
  let total := fold_left (fun acc h => acc + Price h) hosts 0 in
  let out := checkWalletBalance up st in
  ((exists e, out.1 = Failed e) <->
     ((exists e, os_Stat (Filename up) = Err e) \/
      (exists fi, os_Stat (Filename up) = Ok fi /\
         (hosts = [] \/
          2 * ((total / uint64 (len hosts)) * uint64 (Duration up) * uint64 (Size fi))
            > wallet_ConfirmedBalance)))) /\
  (out.1 = Returned tt \/ exists e, out.1 = Failed e) /\
  files out.2 = files st /\
  exists l, rlog out.2 = rlog st ++ l /\ Forall (fun x => is_traffic x = false) l.
Proof.
  intros Hec hosts total out.
  assert (exists l, rlog out.2 = rlog st ++ l /\ Forall (fun x => is_traffic x = false) l)
    as Hlog.
  { destruct (checkWalletBalance_logs up ec Hec st) as (l & Hl & Hf & _).
    exists l. split; [done|]. eapply Forall_impl; [exact Hf|].
    intros x Hx. by destruct x. }
  destruct (checkWalletBalance_result up ec st Hec) as [Hfiles Hout].
  fold hosts total out in Hout, Hfiles.
  split; [|split; [|by split]]; rewrite Hout; clear Hout Hlog.
  - destruct (os_Stat (Filename up)) as [fi|e].
    + assert ((len hosts =? 0) = true <-> hosts = []) as Hnil.
      { rewrite Z.eqb_eq. unfold len. split; [|by intros ->].
        destruct hosts; [done|simpl; lia]. }
      destruct (len hosts =? 0) eqn:Hlen.
      * split; [|by eauto]. intros _. right. exists fi. split; [done|].
        left. by apply Hnil.
      * destruct (_ >? wallet_ConfirmedBalance) eqn:Hgt.
        -- split; [|by eauto]. intros _. right. exists fi. split; [done|].
           right. by apply Z.gtb_gt.
        -- split; [by intros [? ?]|].
           intros [[? ?]|(fi' & [= <-] & [Hh|Hc])]; [done| |].
           ++ apply Hnil in Hh. done.
           ++ apply Z.gtb_gt in Hc. congruence.
    + split; [|by eauto]. intros _. left. eauto.
  - destruct (os_Stat (Filename up)) as [fi|e]; [|by eauto].
    destruct (len hosts =? 0); [by eauto|].
    destruct (_ >? wallet_ConfirmedBalance); eauto.
Qed.


(** ** The piece size of a new file *)

(** C9, as the code has it: when the caller supplies no piece size, the
    piece size of the file record is one of the two defaults, and with the
    encryption overhead added it is a multiple of the segment size (it is
    2^22 or 2^16); a piece size the caller supplies is taken as it is. *)
Theorem Upload_piece_size up (st st1 : Rn) handle up' ec f :
  Upload_checks up st = (Returned (handle, up', ec, f), st1) ->
  (PieceSize up = 0 ->
     (pieceSize f = defaultPieceSize \/ pieceSize f = smallPieceSize) /\
     (pieceSize f + TwofishOverhead) mod SegmentSize = 0) /\
  (PieceSize up <> 0 -> pieceSize f = PieceSize up).
Proof.
  intros Hrun. destruct (Upload_checks_logs up st) as (l & _ & _ & Hq).
  rewrite Hrun in Hq. specialize (Hq _ eq_refl). simpl in Hq.
  destruct Hq as (_ & _ & _ & _ & _ & _ & _ & Hp0 & Hp1).
  split; [|done]. intros Hz. split; [by apply Hp0|].
  destruct (Hp0 Hz) as [-> | ->]; unfold defaultPieceSize, smallPieceSize, SegmentSize.
  - replace (2 ^ 22 - TwofishOverhead + TwofishOverhead) with (2 ^ 22) by lia. done.
  - replace (2 ^ 16 - TwofishOverhead + TwofishOverhead) with (2 ^ 16) by lia. done.
Qed.

(** ** The size limit *)

(** C10: a file larger than 5 GiB is rejected.  [Upload] returns an error
    having made no call but the open and the stat of the handle: no default
    is filled in, the balance is not checked and no host is contacted; the
    file table and the host database are as before.  When the extension and
    the nickname pass their checks, the error is the one of the size check. *)
Theorem Upload_rejects_large_file up sched (st : Rn) handle fi :
  os_Open (Filename up) = Ok handle ->
  handle_Stat handle = Ok fi ->
  Size fi > 5 * 1024 * 1024 * 1024 ->
  let out := Upload up sched st in
  (exists e, out.1 = Failed e) /\
  files out.2 = files st /\
  hostDB out.2 = hostDB st /\
  (exists l, rlog out.2 = rlog st ++ l /\
             l `prefix_of` [FxOpen (Filename up); FxHandleStat]) /\
  (filepath_Ext (Filename up) = filepath_Ext (Nickname up) ->
   files st !! Nickname up = None ->
   out.1 = Failed (ErrNew "cannot upload a file larger than 5 GB") /\
   rlog out.2 = rlog st ++ [FxOpen (Filename up); FxHandleStat]).
Proof.
  intros Hopen Hstat Hsize. simpl.
  unfold Upload, Upload_checks, bind at 1 2.
  destruct (String.eqb_spec (filepath_Ext (Filename up)) (filepath_Ext (Nickname up)))
    as [Hext|Hext]; simpl.
  - unfold call_os_Open, call_handle_Stat, get_files, bind, emit, try, ret, fail,
      errors_New.
    rewrite Hopen. simpl.
    case_bool_decide as Hnick; simpl.
    + split; [by eauto|split; [done|split; [done|split]]].
      * exists [FxOpen (Filename up)]. split; [done|]. by exists [FxHandleStat].
      * intros _ Hfree. rewrite Hfree in Hnick. by destruct Hnick.
    + rewrite Hstat. simpl.
      assert ((Size fi >? 5 * 1024 * 1024 * 1024) = true) as -> by (apply Z.gtb_gt; lia).
      simpl. split; [by eauto|split; [done|split; [done|split]]].
      * exists [FxOpen (Filename up); FxHandleStat].
        split; [by rewrite <- app_assoc|done].
      * intros _ _. by rewrite <- app_assoc.
  - unfold errors_New, fail. simpl.
    split; [by eauto|split; [done|split; [done|split]]].
    + exists []. split; [by rewrite app_nil_r|]. apply prefix_nil.
    + done.
Qed.


(** ** The number of sessions *)

Lemma Upload_checks_files up (st : Rn) : files (Upload_checks up st).2 = files st.
Proof.
  unfold Upload_checks, fill_defaults, call_os_Open, call_handle_Stat, get_files,
    coder, bind, emit, try, ret, fail, panic, errors_New.
  destruct (negb _); [done|]. simpl.
  destruct (os_Open (Filename up)) as [handle|]; [|done]. simpl.
  destruct (bool_decide _); [done|]. simpl.
  destruct (handle_Stat handle) as [fi|]; [|done]. simpl.
  destruct (Size fi >? _); [done|].
  destruct (ErasureCode up) as [ec|] eqn:Hec; simpl.
  - match goal with |- context [checkWalletBalance ?u ?s] =>
      pose proof (checkWalletBalance_result u ec s eq_refl) as [Hf _];
      destruct (checkWalletBalance u s) as [[[]| | |] st1]
    end; simpl in *; done.
  - match goal with |- context [checkWalletBalance ?u ?s] =>
      pose proof (checkWalletBalance_result u _ s eq_refl) as [Hf _];
      destruct (checkWalletBalance u s) as [[[]| | |] st1]
    end; simpl in *; done.
Qed.

(** C6: sessions that cannot be opened are passed over, and [Upload] goes
    on with the ones that could be opened, in order.  When they are fewer
    than the minimum number of pieces of the erasure code, [Upload] fails
    with the not-enough-hosts error, the file table is unchanged and nothing
    has been read from the stream: the pipeline has not run.  Otherwise the
    pipeline runs with exactly these sessions. *)
Theorem Upload_needs_enough_hosts up sched (st st1 : Rn) handle up' ec f cands db' :
  Upload_checks up st = (Returned (handle, up', ec, f), st1) ->
  hostDB_RandomHosts (hostDB st1) (requested_hosts ec) = (cands, db') ->
  let totalsize := uint64 (uint64 (PieceSize up' * uint64 (NumPieces ec)) * numChunks f) in
  let hosts := sessions cands totalsize (Duration up') (masterKey f) in
  let st2 := mkRenter (files st1) db'
               (rlog st1 ++ FxRandomHosts (requested_hosts ec)
                  :: map (fun h => FxNewHostUploader h totalsize (Duration up')) cands) in
  Upload_connect up' ec f st1 = (Returned hosts, st2) /\
  Upload up sched st
    = with_deferred_Close (length hosts)
        (Upload_transfer up' ec f handle hosts sched) st2 /\
  (len hosts < MinPieces ec ->
     (Upload up sched st).1 = Failed (ErrNew "not enough hosts to support upload") /\
     files (Upload up sched st).2 = files st /\
     exists l, rlog (Upload up sched st).2 = rlog st ++ l /\
               forall e, ~ In (FxPipeline e) l) /\
  (MinPieces ec <= len hosts ->
     forall tr s err, upload f handle hosts sched = Some (tr, s) -> disp s = DRet err ->
       exists l, rlog (Upload up sched st).2
                 = rlog st2 ++ FxSave :: map FxPipeline tr ++ l).
Proof.
  intros Hchecks Hrand totalsize hosts st2.
  assert (Upload_connect up' ec f st1 = (Returned hosts, st2)) as Hconnect.
  { unfold Upload_connect, call_RandomHosts, bind, emit. simpl.
    fold (requested_hosts ec). rewrite Hrand. rewrite connect_hosts_spec. simpl.
    unfold hosts, st2, totalsize. by rewrite <- app_assoc. }
  assert (Upload up sched st
          = with_deferred_Close (length hosts)
              (Upload_transfer up' ec f handle hosts sched) st2) as Hup.
  { unfold Upload, bind at 1 2. rewrite Hchecks. cbv beta iota. by rewrite Hconnect. }
  split; [done|split; [done|split]].
  - intros Hfew. rewrite Hup.
    unfold with_deferred_Close, Upload_transfer.
    assert ((len hosts <? MinPieces ec) = true) as -> by (by apply Z.ltb_lt).
    simpl. split; [done|split].
    + pose proof (Upload_checks_files up st) as Hf. by rewrite Hchecks in Hf.
    + destruct (Upload_checks_logs up st) as (l & Hl & Hf & _).
      rewrite Hchecks in Hl. simpl in Hl. rewrite Hl.
      eexists. split; [by rewrite <- !app_assoc|].
      intros e [Hin|[Hin|Hin]%in_app_or]%in_app_or.
      * apply list_elem_of_In in Hin. rewrite Forall_forall in Hf.
        by apply Hf in Hin.
      * simpl in Hin. destruct Hin as [?|Hin]; [done|].
        by apply in_map_iff in Hin as (? & ? & _).
      * by apply in_map_iff in Hin as (? & ? & _).
  - intros Henough tr s err Hrun Hret. rewrite Hup.
    unfold with_deferred_Close, Upload_transfer.
    assert ((len hosts <? MinPieces ec) = false) as -> by (by apply Z.ltb_ge).
    unfold call_upload, call_saveFile, r_save, get_files, put_files, bind, emit,
      ret, fail, errors_New.
    simpl. rewrite Hrun, Hret. simpl.
    destruct err as [e|]; simpl.
    + eexists. rewrite <- !app_assoc. simpl. reflexivity.
    + destruct (saveFile (fobj s)); simpl; eexists; rewrite <- !app_assoc; simpl;
        reflexivity.
Qed.

End RenterProps.

(** * The properties at work on the scenarios *)

Section OnScenarios.
Import Doubles Scenarios.

Lemma healthy_run_eq :
  upload demo_file demo_stream [hostA; hostB] healthy_sched
    = Some (healthy_trace, healthy_final).
Proof. vm_compute. reflexivity. Qed.

Lemma faulty_run_eq :
  upload demo_file demo_stream [hostA; hostB_down] faulty_sched
    = Some (faulty_trace, faulty_final).
Proof. vm_compute. reflexivity. Qed.

Lemma testHost_keeps_identity (h : testHost) (p : uploadPiece) :
  hostIP (addPiece h p).1 = hostIP h.
Proof. destruct h as [ip ps [[|n]|]]; reflexivity. Qed.

(** C1: a read error on the first chunk, two hosts.  [upload] returns the
    error in its first step; the request channel is left open, no contract
    has been received, both workers sit at their receive, and no actor can
    ever move again: the workers are blocked for good. *)
Theorem upload_abort_leaves_workers_blocked :
  exists s,
    upload demo_file broken_stream [hostA; hostB] [Disp]
      = Some ([EvRead 0 [] (Some (ErrNew "read: input/output error"))], s) /\
    disp s = DRet (Some (ErrNew "read: input/output error")) /\
    reqClosed s = false /\
    workers s = [mkWorker hostA WRecv; mkWorker hostB WRecv] /\
    contracts (fobj s) = ∅ /\
    (forall a, step s a = None) /\
    (forall sched tr s', run s sched = Some (tr, s') -> sched = [] /\ s' = s).
Proof.
  eexists. split; [vm_compute; reflexivity|].
  assert (forall a, step (H := testHost) (R := byteStream)
            (mkState broken_stream (DRet (Some (ErrNew "read: input/output error")))
               [mkWorker hostA WRecv; mkWorker hostB WRecv] false demo_file) a = None)
    as Hstuck.
  { intros [|[|[|k]]]; reflexivity. }
  repeat split; try reflexivity.
  - exact Hstuck.
  - destruct sched as [|a sched]; [done|]. simpl in H. by rewrite Hstuck in H.
  - destruct sched as [|a sched]; simpl in H; [by simplify_eq|].
    by rewrite Hstuck in H.
Qed.


(** C2 at work: in the run with the refusing host, the first worker leaves
    its loop when the channel is closed and the second when [addPiece]
    fails; each has returned, having sent exactly one contract. *)
Lemma uploadWorker_sends_one_contract_witness :
  upload demo_file demo_stream [hostA; hostB_down] faulty_sched
    = Some (faulty_trace, faulty_final) /\
  contracts_sent 0 faulty_trace = 1%nat /\
  contracts_sent 1 faulty_trace = 1%nat.
Proof.
  split; [exact faulty_run_eq|].
  assert (workers faulty_final !! 0%nat
          = Some (mkWorker (mkTestHost "10.0.0.1:9982" [(0, 0); (1, 0); (1, 1)] None)
                           WDone)) as Hw0 by (vm_compute; reflexivity).
  assert (workers faulty_final !! 1%nat = Some (mkWorker hostB_down WDone)) as Hw1
    by (vm_compute; reflexivity).
  destruct (uploadWorker_sends_one_contract _ _ _ _ _ _ _ _ faulty_run_eq Hw0)
    as (_ & Hsent0 & _).
  destruct (uploadWorker_sends_one_contract _ _ _ _ _ _ _ _ faulty_run_eq Hw1)
    as (_ & Hsent1 & _).
  split; [exact (Hsent0 eq_refl)|exact (Hsent1 eq_refl)].
Defined.

(** C3 at work: two healthy hosts, three bytes in two chunks of two copies
    each: two contracts, eight bytes delivered and counted. *)
Lemma upload_contracts_and_bytes_witness :
  upload demo_file demo_stream [hostA; hostB] healthy_sched
    = Some (healthy_trace, healthy_final) /\
  disp healthy_final = DRet None /\
  size (contracts (fobj healthy_final)) = 2%nat /\
  delivered_bytes healthy_trace = 8 /\
  bytesUploaded (fobj healthy_final) = 8.
Proof.
  split; [exact healthy_run_eq|].
  assert (disp healthy_final = DRet None) as Hret by (vm_compute; reflexivity).
  split; [exact Hret|].
  assert (NoDup (hostIP <$> [hostA; hostB])) as Hnd.
  { apply NoDup_cons. split; [|apply NoDup_singleton].
    intros Hin%list_elem_of_singleton. discriminate Hin. }
  assert (all_succeed healthy_trace) as Hok.
  { intros k req e Hin. unfold healthy_trace in Hin. simpl in Hin.
    repeat (destruct Hin as [Hin|Hin]; [discriminate Hin|]). exact Hin. }
  assert (contracts demo_file = ∅) as Hfresh by reflexivity.
  assert (bytesUploaded demo_file = 0) as Hzero by reflexivity.
  assert (delivered_bytes healthy_trace = 8) as Hd by (vm_compute; reflexivity).
  destruct (upload_contracts_and_bytes testHost_keeps_identity _ _ _ _ _ _
              Hnd Hfresh Hzero Hok healthy_run_eq Hret)
    as (Hsize & _ & _ & _ & Hbytes).
  split; [exact Hsize|]. split; [exact Hd|].
  rewrite Hbytes; [exact Hd|]. rewrite Hd. reflexivity.
Defined.

(** C4 at work: both workers hold a piece of the first chunk.  The healthy
    host takes its piece; the other host refuses, the counter stays and the
    worker is at its send. *)
Lemma uploadWorker_piece_outcome_witness :
  workers faulty_mid !! 0%nat = Some (mkWorker hostA (WAddPiece (first_piece 0))) /\
  workers faulty_mid !! 1%nat = Some (mkWorker hostB_down (WAddPiece (first_piece 1))) /\
  step faulty_mid (Work 0)
    = Some (EvAddPiece 0 (first_piece 0) None,
            set_worker faulty_mid 0
              (mkWorker (mkTestHost "10.0.0.1:9982" [(0, 0)] None)
                        (WCount (first_piece 0)))) /\
  step faulty_mid (Work 1)
    = Some (EvAddPiece 1 (first_piece 1) (Some (ErrNew "host unreachable")),
            set_worker faulty_mid 1 (mkWorker hostB_down WSend)) /\
  bytesUploaded (fobj (set_worker faulty_mid 1 (mkWorker hostB_down WSend)))
    = bytesUploaded (fobj faulty_mid).
Proof.
  assert (workers faulty_mid !! 0%nat
          = Some (mkWorker hostA (WAddPiece (first_piece 0)))) as Hw0
    by (vm_compute; reflexivity).
  assert (workers faulty_mid !! 1%nat
          = Some (mkWorker hostB_down (WAddPiece (first_piece 1)))) as Hw1
    by (vm_compute; reflexivity).
  split; [exact Hw0|]. split; [exact Hw1|].
  pose proof (uploadWorker_piece_outcome faulty_mid 0%nat _ (first_piece 0)
                Hw0 eq_refl) as Hgood.
  pose proof (uploadWorker_piece_outcome faulty_mid 1%nat _ (first_piece 1)
                Hw1 eq_refl) as Hbad.
  cbn [addPiece host testHost_uploader hostA hostB_down th_budget th_ip th_pieces
       first_piece chunkIndex pieceIndex app] in Hgood, Hbad.
  destruct Hgood as [Hgood _]. destruct Hbad as (Hbad & Hsame & _).
  split; [exact Hgood|]. split; [exact Hbad|exact Hsame].
Defined.

(** C5 at work: a full read and the read at the end of the three-byte
    stream, and the read of the broken one. *)
Lemma upload_read_cases_witness :
  let s0 := upload_init demo_file demo_stream [hostA; hostB] in
  let s2 := mkState (mkStream [] None) (DRead 2) (workers s0) false demo_file in
  let b0 := upload_init demo_file broken_stream [hostA; hostB] in
  step s0 Disp
    = Some (EvRead 0 [x01; x02] None,
            mkState (mkStream [x03] None) (DSend 0 0 [[x01; x02]; [x01; x02]])
                    (workers s0) false demo_file) /\
  step s2 Disp
    = Some (EvRead 2 [] (Some EOF),
            mkState (mkStream [] None) DClose (workers s0) false demo_file) /\
  step b0 Disp
    = Some (EvRead 0 [] (Some (ErrNew "read: input/output error")),
            mkState broken_stream (DRet (Some (ErrNew "read: input/output error")))
                    (workers s0) false demo_file).
Proof.
  intros s0 s2 b0.
  assert (io_ReadFull (src s0) (Z.to_nat (chunkSize (fobj s0)))
          = (mkStream [x03] None, [x01; x02], None)) as Hr0 by (vm_compute; reflexivity).
  assert (io_ReadFull (src s2) (Z.to_nat (chunkSize (fobj s2)))
          = (mkStream [] None, [], Some EOF)) as Hr2 by (vm_compute; reflexivity).
  assert (io_ReadFull (src b0) (Z.to_nat (chunkSize (fobj b0)))
          = (broken_stream, [], Some (ErrNew "read: input/output error"))) as Hrb
    by (vm_compute; reflexivity).
  pose proof (upload_read_cases s0 0 _ _ _ eq_refl Hr0) as Hfull.
  pose proof (upload_read_cases s2 2 _ _ _ eq_refl Hr2) as [Heof _].
  pose proof (upload_read_cases b0 0 _ _ _ eq_refl Hrb) as [Hbad _].
  split; [|split; [exact Heof|exact Hbad]].
  vm_compute in Hfull. vm_compute. exact Hfull.
Defined.

End OnScenarios.

Section OnWorlds.
Import Doubles Scenarios.

(** C6 at work: five hosts are known and one can be reached, the default
    code needs two: [Upload] fails for want of hosts and the pipeline has not
    run. *)
Lemma Upload_needs_enough_hosts_witness :
  (Upload_in world_few plain_request [] emptyRenter).1
    = Failed (ErrNew "not enough hosts to support upload") /\
  files (Upload_in world_few plain_request [] emptyRenter).2 = files emptyRenter.
Proof.
  destruct (Upload_checks_in world_few plain_request emptyRenter)
    as [[[[[handle up'] ec] f]|e| |] st1] eqn:Hc;
    [|vm_compute in Hc; discriminate Hc..].
  pose proof Hc as Hv. vm_compute in Hv. injection Hv as <- <- <- <- <-.
  match type of Hc with _ = (Returned (_, _, ?ec, _), ?st1) =>
    destruct (hostDB_RandomHosts (Collaborators := testWorld world_few)
                (hostDB st1) (requested_hosts ec)) as [cands db'] eqn:Hr
  end.
  destruct (Upload_needs_enough_hosts (Collaborators0 := testWorld world_few)
              plain_request [] emptyRenter _ _ _ _ _ _ _ Hc Hr)
    as (_ & _ & Hfew & _).
  vm_compute in Hr. injection Hr as <- <-.
  destruct Hfew as (Hfail & Hfiles & _); [vm_compute; reflexivity|].
  split; [exact Hfail|exact Hfiles].
Defined.


(** C7 at work: the default code has twelve pieces, so eighteen candidates
    are asked for, by the balance check and by the host selection. *)
Lemma host_sample_is_floor_witness :
  host_requests (rlog (Upload_in world_ok plain_request [] emptyRenter).2) = [18; 18] /\
  12 * 3 / 2 = ceil_one_and_a_half 12 - 0.
Proof.
  split; [vm_compute; reflexivity|].
  assert (0 <= NumPieces (effective_code (Collaborators0 := testWorld world_ok)
                            plain_request)) as Hge
    by (vm_compute; discriminate).
  assert (NumPieces (effective_code (Collaborators0 := testWorld world_ok)
                       plain_request) * 3 < 2 ^ 63) as Hlt
    by (vm_compute; reflexivity).
  destruct (host_sample_is_floor (Collaborators0 := testWorld world_ok)
              plain_request [] emptyRenter Hge Hlt) as (_ & _ & Harith).
  vm_compute in Harith. vm_compute. exact Harith.
Defined.

(** C7 as stated fails: a code of three pieces makes both the balance check
    and the host selection ask for four candidates, while the ceiling of
    3 * 1.5 is five. *)
Lemma host_sample_is_not_ceil :
  host_requests (rlog (checkWalletBalance_in world_ok odd_request emptyRenter).2) = [4] /\
  host_requests (rlog (Upload_in world_ok odd_request odd_sched emptyRenter).2) = [4; 4] /\
  NumPieces (repCoder 3) = 3 /\
  ceil_one_and_a_half 3 = 5.
Proof. repeat split; vm_compute; reflexivity. Qed.

(** C8 at work: three bytes for 6000 blocks at an average price of one cost
    36000 with the buffer, which the wallet holds. *)
Lemma checkWalletBalance_error_iff_witness :
  ErasureCode odd_request = Some (repCoder 3) /\
  (checkWalletBalance_in world_ok odd_request emptyRenter).1 = Returned tt.
Proof.
  split; [reflexivity|].
  destruct (checkWalletBalance_error_iff (Collaborators0 := testWorld world_ok)
              odd_request (repCoder 3) emptyRenter eq_refl)
    as (_ & [Hret|[e He]] & _).
  - exact Hret.
  - vm_compute in He. discriminate He.
Defined.

(** C8 as stated fails: the file cannot be found by name, so the balance
    check returns the error of the stat, although the host sample is not
    empty and no file size could make the cost exceed the balance (the hosts
    store for free). *)
Lemma checkWalletBalance_fails_on_stat :
  let hosts :=
    (hostDB_RandomHosts (Collaborators := testWorld world_gone) tt
       (requested_hosts (repCoder 3))).1 in
  let total := fold_left (fun acc h => acc + Price h) hosts 0 in
  (checkWalletBalance_in world_gone odd_request emptyRenter).1
    = Failed (ErrNew "stat: no such file") /\
  hosts <> [] /\
  forall size : Z,
    ~ (2 * ((total / uint64 (len hosts)) * uint64 (Duration odd_request) * uint64 size)
       > wallet_ConfirmedBalance (Collaborators := testWorld world_gone)).
Proof.
  intros hosts total.
  split; [vm_compute; reflexivity|].
  split; [vm_compute; discriminate|].
  intros size.
  assert (total / uint64 (len hosts) = 0) as -> by (vm_compute; reflexivity).
  assert (wallet_ConfirmedBalance (Collaborators := testWorld world_gone) = 0) as ->
    by reflexivity.
  lia.
Qed.

(** C9 at work: nothing asked for, a file of three bytes: the small default
    piece size, which with the overhead of 28 bytes makes 2^16. *)
Lemma Upload_piece_size_witness :
  exists handle up' ec f st1,
    Upload_checks_in world_ok plain_request emptyRenter
      = (Returned (handle, up', ec, f), st1) /\
    pieceSize f = 65508 /\
    (pieceSize f + 28) mod 64 = 0.
Proof.
  destruct (Upload_checks_in world_ok plain_request emptyRenter)
    as [[[[[handle up'] ec] f]|e| |] st1] eqn:Hc;
    [|vm_compute in Hc; discriminate Hc..].
  exists handle, up', ec, f, st1. split; [reflexivity|].
  destruct (Upload_piece_size (Collaborators0 := testWorld world_ok)
              plain_request emptyRenter st1 handle up' ec f Hc) as [Hdefault _].
  destruct (Hdefault eq_refl) as [_ Hmod].
  vm_compute in Hc. injection Hc as <- <- <- <- <-.
  split; [reflexivity|exact Hmod].
Defined.

(** C9 as stated fails.  A piece size of one byte supplied by the caller is
    taken as it is: the upload succeeds and the file table holds a record
    with pieces of one byte.  And the default piece size is 28 bytes short
    of 2^16, which is not a multiple of 64 either. *)
Lemma piece_size_not_segment_multiple :
  (Upload_in world_ok odd_request odd_sched emptyRenter).1 = Returned tt /\
  pieceSize <$> (files (Upload_in world_ok odd_request odd_sched emptyRenter).2
                   !! "backup.bin") = Some 1 /\
  1 mod SegmentSize <> 0 /\
  (exists handle up' ec f st1,
     Upload_checks_in world_ok plain_request emptyRenter
       = (Returned (handle, up', ec, f), st1) /\
     pieceSize f = 65508 /\ pieceSize f mod SegmentSize = 36).
Proof.
  split; [vm_compute; reflexivity|].
  split; [vm_compute; reflexivity|].
  split; [vm_compute; discriminate|].
  destruct (Upload_checks_in world_ok plain_request emptyRenter)
    as [[[[[handle up'] ec] f]|e| |] st1] eqn:Hc;
    [|vm_compute in Hc; discriminate Hc..].
  exists handle, up', ec, f, st1. split; [reflexivity|].
  vm_compute in Hc. injection Hc as <- <- <- <- <-.
  split; reflexivity.
Qed.

(** C10 at work: a file reported as one byte over 5 GiB is turned away
    after the open and the stat of the handle. *)
Lemma Upload_rejects_large_file_witness :
  Size (mkFileInfo (5 * 1024 * 1024 * 1024 + 1) 420) > 5 * 1024 * 1024 * 1024 /\
  (Upload_in world_big plain_request [] emptyRenter).1
    = Failed (ErrNew "cannot upload a file larger than 5 GB") /\
  rlog (Upload_in world_big plain_request [] emptyRenter).2
    = [FxOpen "data.bin"; FxHandleStat] /\
  files (Upload_in world_big plain_request [] emptyRenter).2 = ∅.
Proof.
  assert (Size (mkFileInfo (5 * 1024 * 1024 * 1024 + 1) 420) > 5 * 1024 * 1024 * 1024)
    as Hbig by (vm_compute; reflexivity).
  split; [exact Hbig|].
  assert (os_Open (Collaborators := testWorld world_big) (Filename plain_request)
          = Ok (mkStream [x01; x02; x03] None)) as Hopen by (vm_compute; reflexivity).
  assert (handle_Stat (Collaborators := testWorld world_big)
            (mkStream [x01; x02; x03] None)
          = Ok (mkFileInfo (5 * 1024 * 1024 * 1024 + 1) 420)) as Hstat
    by (vm_compute; reflexivity).
  destruct (Upload_rejects_large_file (Collaborators0 := testWorld world_big)
              plain_request [] emptyRenter _ _ Hopen Hstat Hbig)
    as (_ & Hfiles & _ & _ & Hlast).
  assert (filepath_Ext (Filename plain_request) = filepath_Ext (Nickname plain_request))
    as Hext by (vm_compute; reflexivity).
  assert (files emptyRenter !! Nickname plain_request = None) as Hfree
    by (vm_compute; reflexivity).
  destruct (Hlast Hext Hfree) as [Herr Hlog].
  split; [exact Herr|]. split; [exact Hlog|exact Hfiles].
Defined.

End OnWorlds.

(** * More on the pipeline *)

Section PipelineMore.
Context {H R : Type} `{!uploader H} `{!Reader R}.

Local Abbreviation St := (@state H R).
Local Abbreviation Wk := (@worker H).

(** The erasure code and the piece size of the file do not change. *)
Lemma file_static_run f (r : R) (hosts : list H) sched tr (s : St) :
  upload f r hosts sched = Some (tr, s) ->
  erasureCode (fobj s) = erasureCode f /\ pieceSize (fobj s) = pieceSize f.
Proof.
  apply (run_invariant
           (fun _ s => erasureCode (fobj s) = erasureCode f
                       /\ pieceSize (fobj s) = pieceSize f)); [done|].
  intros tr' s1 a e s2 Hinv Hs. destruct a as [|k]; simpl in Hs.
  - unfold disp_step, read_chunk in Hs. repeat case_match; simplify_eq; done.
  - unfold worker_step in Hs. repeat case_match; simplify_eq; done.
Qed.

(** ** The chunks-uploaded counter *)




(** ** Every piece is handed out once *)

Lemma flat_map_snoc {A B} (g : A -> list B) l x :
  flat_map g (l ++ [x]) = flat_map g l ++ g x.
Proof. rewrite flat_map_app. simpl. by rewrite app_nil_r. Qed.

(** The pieces the encoder made of the chunks read so far are the pieces
    handed to workers so far, in the same order and with the chunk index and
    the piece index of the loops, followed by the pieces of the chunk at
    hand that are still to be sent.  So no piece is skipped, sent twice or
    sent out of order, and when the dispatcher is not inside a chunk, every
    piece has been handed out. *)
Theorem upload_dispatches_each_piece_once f (r : R) (hosts : list H) sched tr (s : St) :
  upload f r hosts sched = Some (tr, s) ->
  flat_map (queued f) tr = dispatched tr ++ waiting (disp s).
Proof.
  intros Hrun. pose proof Hrun as Hrun0. revert sched tr s Hrun Hrun0.
  assert (forall sched tr (s : St), upload f r hosts sched = Some (tr, s) ->
            erasureCode (fobj s) = erasureCode f /\
            pieceSize (fobj s) = pieceSize f /\
            flat_map (queued f) tr = dispatched tr ++ waiting (disp s)) as Hall.
  { apply (run_invariant
             (fun tr s => erasureCode (fobj s) = erasureCode f /\
                          pieceSize (fobj s) = pieceSize f /\
                          flat_map (queued f) tr = dispatched tr ++ waiting (disp s))).
    - done.
    - intros tr s a e s' (Hec & Hps & Hq) Hs.
      unfold dispatched in *. rewrite !flat_map_snoc.
      assert (chunkSize (fobj s) = chunkSize f) as Hcs
        by (unfold chunkSize; by rewrite Hec, Hps).
      destruct a as [|k]; simpl in Hs.
      + unfold disp_step, read_chunk in Hs.
        destruct (disp s) as [i|i j [|d rest]| |[|n]|err] eqn:Hd; simplify_eq.
        * (* a read *)
          destruct (io_ReadFull (src s) (Z.to_nat (chunkSize (fobj s))))
            as [[r' got] err] eqn:Hread.
          simpl in Hq. rewrite app_nil_r in Hq.
          rewrite Hcs, Hec in Hs.
          destruct err as [[| |msg]|]; simpl in Hs.
          -- simplify_eq. simpl. by rewrite Hq, !app_nil_r.
          -- destruct (Encode _ _) as [ps|e'] eqn:Henc; simplify_eq; simpl;
               rewrite ?Henc, Hq, ?app_nil_r; done.
          -- simplify_eq. simpl. by rewrite Hq, !app_nil_r.
          -- destruct (Encode _ _) as [ps|e'] eqn:Henc; simplify_eq; simpl;
               rewrite ?Henc, Hq, ?app_nil_r; done.
        * simpl in *. by rewrite Hq, !app_nil_r.
        * simpl in *. by rewrite Hq, !app_nil_r.
        * simpl in *. by rewrite Hq, !app_nil_r.
      + destruct (worker_step_inv _ _ _ _ Hs) as (w & w' & _ & Ht & _ & _ & _ & He).
        destruct Ht; simpl in *.
        * destruct He as (_ & -> & ->). by rewrite Hq, !app_nil_r.
        * destruct He as (_ & -> & i & j & d & rest & Hd & -> & ->).
          rewrite Hd in Hq. simpl in *. rewrite Hq, app_nil_r.
          split; [done|split; [done|]]. by rewrite <- app_assoc.
        * destruct He as (-> & ->). by rewrite Hq, !app_nil_r.
        * destruct He as (-> & ->). by rewrite Hq, !app_nil_r.
        * destruct He as (-> & ->). simpl. by rewrite Hq, !app_nil_r.
        * destruct He as (-> & n & Hd & ->). rewrite Hd in Hq. simpl in *.
          by rewrite Hq, !app_nil_r. }
  intros sched tr s Hrun _. by destruct (Hall _ _ _ Hrun) as (_ & _ & ?).
Qed.

(** ** What a worker does with the pieces it takes *)

Lemma flat_map_snoc_nil {A B} (g : A -> list B) l x :
  g x = [] -> flat_map g (l ++ [x]) = flat_map g l.
Proof. intros Hx. by rewrite flat_map_snoc, Hx, app_nil_r. Qed.

Lemma worker_pieces_run f (r : R) (hosts : list H) sched tr (s : St) k h0 w :
  upload f r hosts sched = Some (tr, s) ->
  hosts !! k = Some h0 ->
  workers s !! k = Some w ->
  received k tr = offered k tr ++ holding (wpc w) /\
  host w = session_after h0 (offered k tr).
Proof.
  intros Hrun Hh0. revert w.
  revert sched tr s Hrun.
  apply (run_invariant
           (fun tr s => forall w, workers s !! k = Some w ->
              received k tr = offered k tr ++ holding (wpc w) /\
              host w = session_after h0 (offered k tr))).
  - intros w Hw. simpl in Hw.
    rewrite list_lookup_fmap, Hh0 in Hw. simpl in Hw. by simplify_eq.
  - intros tr s a e s' Hinv Hs w Hw.
    unfold received, offered in *. rewrite !flat_map_snoc.
    destruct (step_workers _ _ _ _ Hs)
      as [(-> & Hws & Hev & _)|(k0 & w0 & w0' & -> & Hw0 & Hws & Ht)].
    + rewrite Hws in Hw. destruct (Hinv w Hw) as [Hr Hh].
      simpl in Hs. unfold disp_step, read_chunk in Hs.
      assert (forall k' req, e <> EvDispatch k' req) as Hnd.
      { intros k' req ->. by destruct (Hev k') as (_ & _ & Hc); simpl in Hc;
          rewrite Nat.eqb_refl in Hc. }
      assert (forall k' req err, e <> EvAddPiece k' req err) as Hna.
      { intros k' req err ->. by destruct (Hev k') as (_ & _ & Hc); simpl in Hc;
          rewrite Nat.eqb_refl in Hc. }
      destruct e; try (by rewrite !app_nil_r);
        [by destruct (Hnd k0 req)|by destruct (Hna k0 req err)].
    + rewrite Hws in Hw. destruct (decide (k = k0)) as [->|Hne].
      * rewrite list_lookup_insert_eq in Hw by (by eapply lookup_lt_Some).
        simplify_eq. destruct (Hinv w0 Hw0) as [Hr Hh].
        destruct Ht as [| |h req h' Hadd|h req h' err Hadd| |]; simpl in *;
          rewrite ?Nat.eqb_refl, ?app_nil_r in *.
        -- done.
        -- by rewrite Hr.
        -- rewrite Hr. split; [done|].
           unfold session_after in *. rewrite fold_left_app. simpl.
           by rewrite <- Hh, Hadd.
        -- rewrite Hr. split; [done|].
           unfold session_after in *. rewrite fold_left_app. simpl.
           by rewrite <- Hh, Hadd.
        -- done.
        -- done.
      * rewrite list_lookup_insert_ne in Hw by done.
        destruct (Hinv w Hw) as [Hr Hh].
        assert (Nat.eqb k0 k = false) as Hk by (apply Nat.eqb_neq; congruence).
        destruct Ht; simpl; rewrite ?Hk, ?app_nil_r; done.
Qed.


(** A worker passes every piece it takes to [addPiece] once, in the order
    taken, apart from the one it may be holding; and its session is the
    session it was started with after these calls.  No piece is dropped,
    tried again or tried on another session. *)
Theorem uploadWorker_offers_each_piece_once
    f (r : R) (hosts : list H) sched tr (s : St) k h0 w :
  upload f r hosts sched = Some (tr, s) ->
  hosts !! k = Some h0 ->
  workers s !! k = Some w ->
  received k tr = offered k tr ++ holding (wpc w) /\
  host w = session_after h0 (offered k tr).
Proof. apply worker_pieces_run. Qed.

(** ** Hosts that fail *)

(** Whatever the hosts do, when [upload] has returned nil on a fresh file
    record with sessions of pairwise distinct identities, the contract map
    has one entry per session; the entry of a session is its contract after
    the [addPiece] calls made on it, failed ones included; and the
    bytes-uploaded counter is the sum of the lengths of the pieces that were
    accepted, modulo 2^64: a refused piece is not counted. *)
Theorem upload_with_failing_hosts f (r : R) (hosts : list H) sched tr (s : St) :
  (forall (h : H) (p : uploadPiece), hostIP (addPiece h p).1 = hostIP h) ->
  NoDup (hostIP <$> hosts) ->
  contracts f = ∅ ->
  bytesUploaded f = 0 ->
  upload f r hosts sched = Some (tr, s) ->
  disp s = DRet None ->
  size (contracts (fobj s)) = length hosts /\
  (forall k h0, hosts !! k = Some h0 ->
     contracts (fobj s) !! hostIP h0
       = Some (getFileContract (session_after h0 (offered k tr)))) /\
  bytesUploaded (fobj s) = uint64 (delivered_bytes tr).
Proof.
  intros Hkeep Hnd Hempty Hzero Hrun Hret.
  pose proof (phase_inv_run _ _ _ _ _ _ Hrun) as Hphase.
  pose proof (all_returned _ Hphase Hret) as Hall.
  destruct (contracts_inv_run Hkeep _ _ _ _ _ _ Hnd Hrun) as [Hips [HB1 HB2]].
  rewrite Hempty in HB2.
  assert (forall k h0, hosts !! k = Some h0 ->
            contracts (fobj s) !! hostIP h0
              = Some (getFileContract (session_after h0 (offered k tr)))) as Hentry.
  { intros k h0 Hk.
    assert ((hostIP <$> hosts) !! k = Some (hostIP h0)) as Hik
      by (by rewrite list_lookup_fmap, Hk).
    rewrite <- Hips, list_lookup_fmap in Hik.
    destruct (workers s !! k) as [w|] eqn:Hw; [|done]. simpl in Hik.
    injection Hik as Hik.
    destruct (worker_pieces_run _ _ _ _ _ _ _ _ _ Hrun Hk Hw) as [_ Hh].
    rewrite <- Hik, <- Hh. apply (HB1 k w Hw). by apply (Hall k). }
  split; [|split; [done|]].
  - assert (dom (contracts (fobj s)) = list_to_set (hostIP <$> hosts)) as Hdom.
    { apply set_eq. intros ip. rewrite elem_of_dom, elem_of_list_to_set. split.
      - intros [c Hc]. destruct (decide (ip ∈ hostIP <$> hosts)) as [|Hnot]; [done|].
        rewrite HB2, lookup_empty in Hc; [done|].
        intros k w Hw _ Heq. apply Hnot. rewrite <- Hips.
        apply list_elem_of_lookup. exists k. by rewrite list_lookup_fmap, Hw, <- Heq.
      - intros (h & -> & [k Hk]%list_elem_of_lookup)%list_elem_of_fmap.
        rewrite (Hentry k h Hk). eauto. }
    rewrite <- size_dom, Hdom, size_list_to_set by done. by rewrite length_fmap.
  - pose proof (bytes_inv_run _ _ _ _ _ _ Hrun) as Hb. unfold bytes_inv in Hb.
    rewrite (in_flight_all_done _ Hall), Hzero, Z.add_0_r, Z.add_0_l in Hb.
    pose proof (counter_in_range _ _ _ _ _ _ Hrun ltac:(rewrite Hzero; lia)) as Hrange.
    rewrite <- Hb. unfold uint64. by rewrite Z.mod_small.
Qed.

(** ** The request channel and the contract map *)

(** While the dispatcher is in its chunk loop or at the close, the request
    channel is open; and as long as the channel is open, no worker has
    returned and the contract map of the file is untouched.  The map is
    written only during the drain, after the close. *)
Theorem upload_writes_contracts_after_close f (r : R) (hosts : list H) sched tr (s : St) :
  upload f r hosts sched = Some (tr, s) ->
  (closing (disp s) \/ (exists err, disp s = DRet (Some err)) \/ reqClosed s = false) /\
  (reqClosed s = false ->
     contracts (fobj s) = contracts f /\
     forall k w, workers s !! k = Some w -> wpc w <> WDone) /\
  (reqClosed s = true -> closing (disp s) /\ disp s <> DClose).
Proof.
  intros Hrun.
  pose proof (phase_inv_run _ _ _ _ _ _ Hrun) as Hphase.
  assert (reqClosed s = false -> contracts (fobj s) = contracts f) as Hmap.
  { revert sched tr s Hrun Hphase.
    assert (forall sched tr (s : St), upload f r hosts sched = Some (tr, s) ->
              phase_inv s /\ (reqClosed s = false -> contracts (fobj s) = contracts f))
      as Hall.
    { apply (run_invariant
               (fun _ s => phase_inv s /\
                           (reqClosed s = false -> contracts (fobj s) = contracts f))).
      - split; [apply phase_inv_init|done].
      - intros tr s a e s' [Hp Hc] Hs.
        split; [by eapply phase_inv_step|]. intros Hopen.
        destruct a as [|k]; simpl in Hs.
        + destruct (disp_step_inv _ _ _ Hs) as (_ & -> & _ & Hd). apply Hc.
          destruct Hd as [(i & _ & Hcl & _)|[(i & j & _ & _ & Hcl)
                         |[(_ & _ & Hcl)|(_ & _ & Hcl)]]]; congruence.
        + destruct (worker_step_inv _ _ _ _ Hs)
            as (w & w' & _ & Ht & _ & _ & Hcl & He).
          rewrite Hcl in Hopen. specialize (Hc Hopen).
          destruct Ht; simpl in *.
          * by destruct He as (_ & _ & ->).
          * by destruct He as (_ & -> & _).
          * by destruct He as (_ & ->).
          * by destruct He as (_ & ->).
          * by destruct He as (_ & ->).
          * destruct He as (_ & n & Hd & _). unfold phase_inv in Hp.
            rewrite Hd in Hp. destruct Hp. congruence. }
    intros sched tr s Hrun _. by destruct (Hall _ _ _ Hrun). }
  unfold phase_inv in Hphase.
  split; [|split].
  - destruct (disp s) as [| | | |[e|]]; simpl; destruct Hphase; eauto.
  - intros Hopen. split; [by apply Hmap|].
    apply ndone_none.
    destruct (disp s) as [| | |n|[e|]]; destruct Hphase; congruence.
  - intros Hcl. destruct (disp s) as [| | |n|[e|]]; destruct Hphase; simpl;
      (split; [done || congruence|done || congruence]).
Qed.

(** ** When the pipeline cannot move *)

Lemma all_left_or_not (ws : list Wk) :
  all_left ws \/ exists k w, ws !! k = Some w /\ left_loop (wpc w) = false.
Proof.
  induction ws as [|x ws IH].
  - left. intros k w Hk. done.
  - destruct (left_loop (wpc x)) eqn:Hx.
    + destruct IH as [Hall|(k & w & Hk & Hw)].
      * left. intros [|k] w Hk; simpl in Hk; [by simplify_eq|]. by apply (Hall k).
      * right. by exists (S k), w.
    + right. by exists 0%nat, x.
Qed.

(** When every worker has left its loop on an error while the dispatcher
    still has a piece to send, no goroutine can move: the send on the
    request channel finds no receiver and the workers' sends on the response
    channel find none either.  [upload] never returns. *)
Theorem upload_stuck_when_all_left (s : St) i j d rest :
  disp s = DSend i j (d :: rest) ->
  all_left (workers s) ->
  (forall a, step s a = None) /\
  (forall sched tr s', run s sched = Some (tr, s') -> sched = [] /\ s' = s).
Proof.
  intros Hd Hall.
  assert (forall a, step s a = None) as Hstuck.
  { intros [|k]; simpl.
    - unfold disp_step. by rewrite Hd.
    - unfold worker_step. destruct (workers s !! k) as [w|] eqn:Hw; [|done].
      pose proof (Hall k w Hw) as Hl. rewrite Hd.
      destruct (wpc w); simpl in Hl; done. }
  split; [done|]. intros sched tr s' Hrun.
  destruct sched as [|a sched]; simpl in Hrun; [by simplify_eq|].
  by rewrite Hstuck in Hrun.
Qed.

Lemma ndone_lt_exists (ws : list Wk) :
  ndone ws < len ws -> exists k w, ws !! k = Some w /\ wpc w <> WDone.
Proof.
  unfold ndone, len. induction ws as [|x ws IH]; simpl; [lia|].
  intros Hlt. destruct (is_done (wpc x)) eqn:Hx.
  - destruct IH as (k & w & Hk & Hw); [lia|]. by exists (S k), w.
  - exists 0%nat, x. split; [done|]. intros Hd. by rewrite Hd in Hx.
Qed.

(** That is the only way the pipeline gets stuck before [upload] returns:
    in every state of a run in which [upload] has not returned, some
    goroutine can move, unless the dispatcher has a piece to send and every
    worker has left its loop. *)
Theorem upload_moves_unless_all_left f (r : R) (hosts : list H) sched tr (s : St) :
  upload f r hosts sched = Some (tr, s) ->
  (forall err, disp s <> DRet err) ->
  (waiting (disp s) = [] \/ ~ all_left (workers s)) ->
  exists a e s', step s a = Some (e, s').
Proof.
  intros Hrun Hnot Hcan.
  pose proof (phase_inv_run _ _ _ _ _ _ Hrun) as Hphase. unfold phase_inv in Hphase.
  assert (forall k w, workers s !! k = Some w -> wpc w <> WDone ->
            (reqClosed s = true \/ exists i j d rest, disp s = DSend i j (d :: rest)) ->
            (wpc w = WSend -> exists n, disp s = DDrain (S n)) ->
            exists e s', step s (Work k) = Some (e, s')) as Hworker.
  { intros k w Hw Hnd Hrecv Hsend. simpl. unfold worker_step. rewrite Hw.
    destruct (wpc w) as [|req|req| |] eqn:Hpc; [| | | |done].
    - destruct (reqClosed s) eqn:Hcl; [by eauto|].
      destruct Hrecv as [?|(i & j & d & rest & ->)]; [done|]. eauto.
    - destruct (addPiece (host w) req) as [h' [err|]]; eauto.
    - eauto.
    - destruct (Hsend eq_refl) as [n ->]. eauto. }
  destruct (disp s) as [i|i j [|d rest]| |[|n]|err] eqn:Hd.
  - exists Disp. simpl. unfold disp_step. rewrite Hd.
    destruct (read_chunk s i) as [e s']. eauto.
  - exists Disp. simpl. unfold disp_step. rewrite Hd. eauto.
  - destruct Hcan as [Hw|Hsome]; [done|].
    destruct (all_left_or_not (workers s)) as [?|(k & w & Hw & Hl)]; [done|].
    exists (Work k). apply (Hworker k w Hw).
    + intros Hdone. by rewrite Hdone in Hl.
    + right. eauto.
    + intros Hpc. by rewrite Hpc in Hl.
  - exists Disp. simpl. unfold disp_step. rewrite Hd. eauto.
  - exists Disp. simpl. unfold disp_step. rewrite Hd. eauto.
  - destruct Hphase as [Hn Hcl].
    destruct (ndone_lt_exists (workers s)) as (k & w & Hw & Hnd); [lia|].
    exists (Work k). apply (Hworker k w Hw Hnd); [by left|]. eauto.
  - by destruct (Hnot err).
Qed.

End PipelineMore.

(** * More on the renter *)

Section RenterMore.
Context {H R DB : Type} `{!uploader H} `{!Reader R} `{!Collaborators H R DB}.
Local Open Scope renter_scope.

Local Abbreviation Rn := (Renter DB).

(** ** Requests that are turned away *)

(** [Upload] gets past its checks only for a nickname that is free. *)
Lemma Upload_checks_nickname_free up (st st1 : Rn) x :
  Upload_checks up st = (Returned x, st1) -> files st !! Nickname up = None.
Proof.
  unfold Upload_checks, bind at 1 2.
  destruct (negb _); [done|].
  unfold call_os_Open, get_files, bind, emit, try, ret, fail, errors_New.
  destruct (os_Open (Filename up)) as [handle|]; [|done]. simpl.
  case_bool_decide as Hnick; [done|]. intros _.
  destruct (files st !! Nickname up) eqn:Hl; [|done]. destruct Hnick. eauto.
Qed.

(** A request whose nickname and file name differ in their extension is
    turned away before anything is done, the file not even opened; a request
    under a nickname that is taken is turned away once the file is open, and
    the record under that nickname stays. *)
Theorem Upload_rejects_names up sched (st : Rn) :
  (filepath_Ext (Filename up) <> filepath_Ext (Nickname up) ->
   Upload up sched st
     = (Failed (ErrNew "nickname and file name must have the same extension"), st)) /\
  (forall handle g,
     filepath_Ext (Filename up) = filepath_Ext (Nickname up) ->
     os_Open (Filename up) = Ok handle ->
     files st !! Nickname up = Some g ->
     Upload up sched st
       = (Failed (ErrNew "file with that nickname already exists"),
          mkRenter (files st) (hostDB st) (rlog st ++ [FxOpen (Filename up)]))).
Proof.
  split.
  - intros Hext. unfold Upload, Upload_checks, bind at 1 2.
    destruct (String.eqb_spec (filepath_Ext (Filename up)) (filepath_Ext (Nickname up)));
      [done|]. simpl. by destruct st.
  - intros handle g Hext Hopen Hnick. unfold Upload, Upload_checks, bind at 1 2.
    destruct (String.eqb_spec (filepath_Ext (Filename up)) (filepath_Ext (Nickname up)));
      [|done]. simpl.
    unfold call_os_Open, get_files, bind, emit, try, ret, fail, errors_New.
    rewrite Hopen. simpl. rewrite Hnick.
    rewrite bool_decide_eq_true_2 by eauto. done.
Qed.



(** ** After the hosts have been selected *)

(** [Upload] once its checks have passed and the candidates are known. *)
Lemma Upload_after_checks up sched (st st1 : Rn) handle up' ec f cands db' :
  Upload_checks up st = (Returned (handle, up', ec, f), st1) ->
  hostDB_RandomHosts (hostDB st1) (requested_hosts ec) = (cands, db') ->
  let totalsize := uint64 (uint64 (PieceSize up' * uint64 (NumPieces ec)) * numChunks f) in
  let hosts := sessions cands totalsize (Duration up') (masterKey f) in
  let st2 := mkRenter (files st) db'
               (rlog st1 ++ FxRandomHosts (requested_hosts ec)
                  :: map (fun h => FxNewHostUploader h totalsize (Duration up')) cands) in
  Nickname up' = Nickname up /\
  files st !! Nickname up = None /\
  Upload up sched st
    = with_deferred_Close (length hosts)
        (Upload_transfer up' ec f handle hosts sched) st2.
Proof.
  intros Hchecks Hrand totalsize hosts st2.
  pose proof (Upload_checks_files up st) as Hfiles. rewrite Hchecks in Hfiles.
  simpl in Hfiles.
  destruct (Upload_checks_logs up st) as (l & _ & _ & Hq).
  rewrite Hchecks in Hq. destruct (Hq _ eq_refl) as (_ & Hnick & _).
  split; [done|]. split; [by eapply Upload_checks_nickname_free|].
  unfold Upload, bind at 1 2. rewrite Hchecks. cbv beta iota.
  unfold Upload_connect, call_RandomHosts, bind, emit. simpl.
  fold (requested_hosts ec). rewrite Hrand, connect_hosts_spec. simpl.
  unfold st2, hosts, totalsize. by rewrite <- app_assoc, Hfiles.
Qed.

(** When the transfer fails, the file is taken out of the table again:
    [Upload] returns its failed-to-upload error and the file table is as it
    was before the call. *)
Theorem Upload_rolls_back_failed_transfer
    up sched (st st1 : Rn) handle up' ec f cands db' tr s err :
  Upload_checks up st = (Returned (handle, up', ec, f), st1) ->
  hostDB_RandomHosts (hostDB st1) (requested_hosts ec) = (cands, db') ->
  let totalsize := uint64 (uint64 (PieceSize up' * uint64 (NumPieces ec)) * numChunks f) in
  let hosts := sessions cands totalsize (Duration up') (masterKey f) in
  MinPieces ec <= len hosts ->
  upload f handle hosts sched = Some (tr, s) ->
  disp s = DRet (Some err) ->
  (Upload up sched st).1 = Failed (ErrNew "failed to upload any file pieces") /\
  files (Upload up sched st).2 = files st.
Proof.
  intros Hchecks Hrand totalsize hosts Henough Hrun Hret.
  destruct (Upload_after_checks up sched st st1 handle up' ec f cands db' Hchecks Hrand)
    as (Hnick & Hfree & ->).
  fold totalsize. fold hosts.
  unfold with_deferred_Close, Upload_transfer.
  assert ((len hosts <? MinPieces ec) = false) as -> by (by apply Z.ltb_ge).
  unfold call_upload, r_save, get_files, put_files, bind, emit, ret, fail, errors_New.
  simpl. rewrite Hrun, Hret. simpl. split; [done|].
  rewrite Hnick, !delete_insert_eq. by apply delete_id.
Qed.

(** When the transfer succeeds, the table holds the file under its nickname
    as the pipeline left it, contracts and counters included, and every
    other entry is as before.  This is so whether or not the file can then
    be saved: [Upload] returns the error of the save, or nil. *)
Theorem Upload_registers_uploaded_file
    up sched (st st1 : Rn) handle up' ec f cands db' tr s :
  Upload_checks up st = (Returned (handle, up', ec, f), st1) ->
  hostDB_RandomHosts (hostDB st1) (requested_hosts ec) = (cands, db') ->
  let totalsize := uint64 (uint64 (PieceSize up' * uint64 (NumPieces ec)) * numChunks f) in
  let hosts := sessions cands totalsize (Duration up') (masterKey f) in
  MinPieces ec <= len hosts ->
  upload f handle hosts sched = Some (tr, s) ->
  disp s = DRet None ->
  files (Upload up sched st).2 = <[Nickname up := fobj s]> (files st) /\
  (Upload up sched st).1
    = match saveFile (fobj s) with
      | Some e => Failed e
      | None => Returned tt
      end.
Proof.
  intros Hchecks Hrand totalsize hosts Henough Hrun Hret.
  destruct (Upload_after_checks up sched st st1 handle up' ec f cands db' Hchecks Hrand)
    as (Hnick & Hfree & ->).
  fold totalsize. fold hosts.
  unfold with_deferred_Close, Upload_transfer.
  assert ((len hosts <? MinPieces ec) = false) as -> by (by apply Z.ltb_ge).
  unfold call_upload, call_saveFile, r_save, get_files, put_files, bind, emit,
    ret, fail, errors_New.
  simpl. rewrite Hrun, Hret. simpl.
  destruct (saveFile (fobj s)); simpl; by rewrite Hnick, insert_insert_eq.
Qed.

(** ** Closing the sessions *)

Lemma Upload_transfer_logs (P : effect -> Prop) up ec f handle (hosts : list H) sched :
  P FxSave -> P FxSaveFile -> (forall e, P (FxPipeline e)) ->
  logs (DB := DB) P (fun _ => True) (Upload_transfer up ec f handle hosts sched).
Proof.
  intros Hsave Hsf Hpipe.
  unfold Upload_transfer. destruct (_ <? _); [apply logs_fail|].
  eapply logs_bind; [apply logs_get_files|]. intros table _.
  eapply logs_bind; [apply logs_put_files|]. intros _ _.
  eapply logs_bind; [by apply logs_emit|]. intros _ _.
  eapply logs_bind; [by apply logs_call_upload|]. intros [err f'] _.
  destruct err.
  - eapply logs_bind; [apply logs_get_files|]. intros table' _.
    eapply logs_bind; [apply logs_put_files|]. intros _ _.
    eapply logs_bind; [by apply logs_emit|]. intros _ _. apply logs_fail.
  - unfold call_saveFile. eapply logs_bind; [by apply logs_emit|]. intros _ _.
    destruct (saveFile f'); [apply logs_fail|by apply logs_ret].
Qed.

(** Every session that was opened is closed once, last opened first, as the
    last thing [Upload] does, whichever way it returns after the hosts were
    selected; and no session is closed while [Upload] has not returned. *)
Theorem Upload_closes_sessions up sched (st st1 : Rn) handle up' ec f cands db' :
  Upload_checks up st = (Returned (handle, up', ec, f), st1) ->
  hostDB_RandomHosts (hostDB st1) (requested_hosts ec) = (cands, db') ->
  let totalsize := uint64 (uint64 (PieceSize up' * uint64 (NumPieces ec)) * numChunks f) in
  let hosts := sessions cands totalsize (Duration up') (masterKey f) in
  let closes :=
    match (Upload up sched st).1 with
    | Blocked => []
    | _ => map FxClose (rev (seq 0 (length hosts)))
    end in
  exists l, rlog (Upload up sched st).2 = rlog st ++ l ++ closes /\
            Forall (fun x => forall i, x <> FxClose i) l.
Proof.
  intros Hchecks Hrand totalsize hosts.
  destruct (Upload_after_checks up sched st st1 handle up' ec f cands db' Hchecks Hrand)
    as (_ & _ & ->).
  fold totalsize. fold hosts.
  destruct (Upload_checks_logs up st) as (l1 & Hl1 & Hf1 & _).
  rewrite Hchecks in Hl1. simpl in Hl1.
  set (st2 := mkRenter (files st) db'
                (rlog st1 ++ FxRandomHosts (requested_hosts ec)
                   :: map (fun h => FxNewHostUploader h totalsize (Duration up')) cands)).
  destruct (Upload_transfer_logs (fun x => forall i, x <> FxClose i)
              up' ec f handle hosts sched ltac:(done) ltac:(done) ltac:(done) st2)
    as (l2 & Hl2 & Hf2 & _).
  assert (Forall (fun x => forall i, x <> FxClose i)
            (l1 ++ FxRandomHosts (requested_hosts ec)
               :: map (fun h => FxNewHostUploader h totalsize (Duration up')) cands ++ l2))
    as Hnone.
  { apply Forall_app. split.
    - eapply Forall_impl; [exact Hf1|]. intros x Hx i ->. done.
    - constructor; [done|]. apply Forall_app. split; [|done].
      by apply Forall_map_all. }
  eexists. split; [|exact Hnone].
  unfold with_deferred_Close.
  destruct (Upload_transfer up' ec f handle hosts sched st2) as [[[]|e| |] st3] eqn:Ht;
    simpl in *; rewrite Hl2; unfold st2; simpl; rewrite Hl1, ?app_nil_r;
    repeat (rewrite <- app_assoc; simpl); reflexivity.
Qed.

(** ** The balance check on an empty file *)

(** Storing nothing costs nothing: for a file of size zero the balance check
    passes whenever some host is known and the balance is not negative. *)
Theorem checkWalletBalance_empty_file up ec (st : Rn) fi :
  ErasureCode up = Some ec ->
  os_Stat (Filename up) = Ok fi ->
  Size fi = 0 ->
  (hostDB_RandomHosts (hostDB st) (requested_hosts ec)).1 <> [] ->
  0 <= wallet_ConfirmedBalance ->
  (checkWalletBalance up st).1 = Returned tt.
Proof.
  intros Hec Hstat Hsize Hhosts Hbal.
  destruct (checkWalletBalance_result up ec st Hec) as [_ ->].
  rewrite Hstat, Hsize.
  destruct (len _ =? 0) eqn:Hlen.
  - apply Z.eqb_eq in Hlen. unfold len in Hlen.
    destruct (hostDB_RandomHosts (hostDB st) (requested_hosts ec)).1; [done|].
    simpl in Hlen. lia.
  - change (uint64 0) with 0. rewrite Z.mul_0_r, Z.mul_0_r.
    destruct (0 >? wallet_ConfirmedBalance) eqn:Hgt; [|done].
    apply Z.gtb_gt in Hgt. lia.
Qed.

End RenterMore.

(** * The further properties at work on the scenarios *)

Section MoreOnScenarios.
Import Doubles Scenarios.

Lemma faulty_mid_eq :
  upload demo_file demo_stream [hostA; hostB_down] [Disp; Work 0; Work 1]%nat
    = Some (faulty_mid_trace, faulty_mid).
Proof. vm_compute. reflexivity. Qed.


(** The four pieces of the two chunks were handed out, in order. *)
Lemma upload_dispatches_each_piece_once_witness :
  dispatched healthy_trace
    = [mkPiece [x01; x02] 0 0; mkPiece [x01; x02] 0 1;
       mkPiece [x03; x00] 1 0; mkPiece [x03; x00] 1 1] /\
  flat_map (queued demo_file) healthy_trace = dispatched healthy_trace.
Proof.
  split; [vm_compute; reflexivity|].
  pose proof (upload_dispatches_each_piece_once demo_file demo_stream [hostA; hostB]
                healthy_sched healthy_trace healthy_final healthy_run_eq) as Hq.
  assert (waiting (disp healthy_final) = []) as Hw by (vm_compute; reflexivity).
  rewrite Hw, app_nil_r in Hq. exact Hq.
Defined.

(** The refusing host was given one piece and was asked once. *)
Lemma uploadWorker_offers_each_piece_once_witness :
  received 1 faulty_trace = [first_piece 1] /\
  offered 1 faulty_trace = [first_piece 1].
Proof.
  assert (received 1 faulty_trace = [first_piece 1]) as Hr by (vm_compute; reflexivity).
  split; [exact Hr|].
  assert (workers faulty_final !! 1%nat = Some (mkWorker hostB_down WDone)) as Hw
    by (vm_compute; reflexivity).
  assert ([hostA; hostB_down] !! 1%nat = Some hostB_down) as Hh by reflexivity.
  destruct (uploadWorker_offers_each_piece_once demo_file demo_stream
              [hostA; hostB_down] faulty_sched faulty_trace faulty_final 1%nat
              hostB_down _ faulty_run_eq Hh Hw) as [Heq _].
  change (holding (wpc (mkWorker hostB_down WDone))) with (@nil uploadPiece) in Heq.
  rewrite app_nil_r in Heq. rewrite <- Heq. exact Hr.
Defined.

(** With the refusing host there are still two contracts, and the six bytes
    of the three accepted pieces are counted. *)
Lemma upload_with_failing_hosts_witness :
  size (contracts (fobj faulty_final)) = 2%nat /\
  bytesUploaded (fobj faulty_final) = 6.
Proof.
  assert (NoDup (hostIP <$> [hostA; hostB_down])) as Hnd.
  { apply NoDup_cons. split; [|apply NoDup_singleton].
    intros Hin%list_elem_of_singleton. discriminate Hin. }
  assert (contracts demo_file = ∅) as Hfresh by reflexivity.
  assert (bytesUploaded demo_file = 0) as Hzero by reflexivity.
  assert (disp faulty_final = DRet None) as Hret by (vm_compute; reflexivity).
  destruct (upload_with_failing_hosts demo_file demo_stream [hostA; hostB_down]
              faulty_sched faulty_trace faulty_final testHost_keeps_identity
              Hnd Hfresh Hzero faulty_run_eq Hret) as (Hsize & _ & Hbytes).
  split; [exact Hsize|]. rewrite Hbytes. vm_compute. reflexivity.
Defined.

(** In the middle of the first chunk the channel is open and the contract
    map is empty. *)
Lemma upload_writes_contracts_after_close_witness :
  reqClosed faulty_mid = false /\ contracts (fobj faulty_mid) = ∅.
Proof.
  assert (reqClosed faulty_mid = false) as Hopen by (vm_compute; reflexivity).
  split; [exact Hopen|].
  destruct (upload_writes_contracts_after_close demo_file demo_stream
              [hostA; hostB_down] _ _ _ faulty_mid_eq) as (_ & Hmap & _).
  destruct (Hmap Hopen) as [Hc _]. exact Hc.
Defined.

(** The refusing host alone: after its refusal nothing can move. *)
Lemma upload_stuck_when_all_left_witness :
  disp lonely_stuck = DSend 0 1 [[x01; x02]] /\
  step lonely_stuck Disp = None /\
  step lonely_stuck (Work 0) = None.
Proof.
  assert (disp lonely_stuck = DSend 0 1 [[x01; x02]]) as Hd by (vm_compute; reflexivity).
  split; [exact Hd|].
  assert (all_left (workers lonely_stuck)) as Hall.
  { intros [|k] w Hk; vm_compute in Hk; [|discriminate Hk].
    injection Hk as <-. reflexivity. }
  destruct (upload_stuck_when_all_left lonely_stuck 0 1 [x01; x02] [] Hd Hall)
    as [Hstuck _].
  split; apply Hstuck.
Defined.

(** In the middle of the first chunk something can move. *)
Lemma upload_moves_unless_all_left_witness :
  waiting (disp faulty_mid) = [] /\
  exists a e s', step faulty_mid a = Some (e, s').
Proof.
  assert (waiting (disp faulty_mid) = []) as Hw by (vm_compute; reflexivity).
  split; [exact Hw|].
  apply (upload_moves_unless_all_left demo_file demo_stream [hostA; hostB_down]
           _ _ _ faulty_mid_eq).
  - intros err Hd. vm_compute in Hd. discriminate Hd.
  - left. exact Hw.
Defined.

End MoreOnScenarios.

Section MoreOnWorlds.
Import Doubles Scenarios.

(** A nickname in [.txt] for a file in [.bin] is turned away untouched; a
    nickname that is taken is turned away with the record kept. *)
Lemma Upload_rejects_names_witness :
  Upload_in world_ok mismatched_request [] emptyRenter
    = (Failed (ErrNew "nickname and file name must have the same extension"),
       emptyRenter) /\
  (Upload_in world_ok plain_request [] taken_renter).1
    = Failed (ErrNew "file with that nickname already exists") /\
  files (Upload_in world_ok plain_request [] taken_renter).2 = files taken_renter.
Proof.
  destruct (Upload_rejects_names (Collaborators0 := testWorld world_ok)
              mismatched_request [] emptyRenter) as [Hmis _].
  destruct (Upload_rejects_names (Collaborators0 := testWorld world_ok)
              plain_request [] taken_renter) as [_ Htaken].
  split.
  - apply Hmis. vm_compute. discriminate.
  - assert (filepath_Ext (Filename plain_request) = filepath_Ext (Nickname plain_request))
      as Hext by (vm_compute; reflexivity).
    assert (os_Open (Collaborators := testWorld world_ok) (Filename plain_request)
            = Ok (mkStream [x01; x02; x03] None)) as Hopen by (vm_compute; reflexivity).
    assert (files taken_renter !! Nickname plain_request = Some demo_file) as Hnick
      by (vm_compute; reflexivity).
    unfold Upload_in. rewrite (Htaken _ _ Hext Hopen Hnick). split; reflexivity.
Defined.


(** The encoder fails on the first chunk: the file is taken out of the
    table again. *)
Lemma Upload_rolls_back_failed_transfer_witness :
  (Upload_in world_ok bad_request [Disp] emptyRenter).1
    = Failed (ErrNew "failed to upload any file pieces") /\
  files (Upload_in world_ok bad_request [Disp] emptyRenter).2 = files emptyRenter.
Proof.
  destruct (Upload_checks_in world_ok bad_request emptyRenter)
    as [[[[[handle up'] ec] f]|e| |] st1] eqn:Hc;
    [|vm_compute in Hc; discriminate Hc..].
  pose proof Hc as Hv. vm_compute in Hv. injection Hv as <- <- <- <- <-.
  match type of Hc with _ = (Returned (_, _, ?ec, _), ?st1) =>
    destruct (hostDB_RandomHosts (Collaborators := testWorld world_ok)
                (hostDB st1) (requested_hosts ec)) as [cands db'] eqn:Hr
  end.
  pose proof Hr as Hrv. vm_compute in Hrv. injection Hrv as <- <-.
  refine (Upload_rolls_back_failed_transfer (Collaborators0 := testWorld world_ok)
            bad_request [Disp] emptyRenter _ _ _ _ _ _ _ _ _
            (ErrNew "encode: bad chunk size") Hc Hr _ _ _).
  - vm_compute. discriminate.
  - vm_compute. reflexivity.
  - reflexivity.
Defined.

(** A complete upload: the table holds the file with its four contracts. *)
Lemma Upload_registers_uploaded_file_witness :
  (Upload_in world_ok odd_request odd_sched emptyRenter).1 = Returned tt /\
  (fun g => size (contracts g))
    <$> (files (Upload_in world_ok odd_request odd_sched emptyRenter).2 !! "backup.bin")
    = Some 4%nat.
Proof.
  destruct (Upload_checks_in world_ok odd_request emptyRenter)
    as [[[[[handle up'] ec] f]|e| |] st1] eqn:Hc;
    [|vm_compute in Hc; discriminate Hc..].
  pose proof Hc as Hv. vm_compute in Hv. injection Hv as <- <- <- <- <-.
  match type of Hc with _ = (Returned (_, _, ?ec, _), ?st1) =>
    destruct (hostDB_RandomHosts (Collaborators := testWorld world_ok)
                (hostDB st1) (requested_hosts ec)) as [cands db'] eqn:Hr
  end.
  pose proof Hr as Hrv. vm_compute in Hrv. injection Hrv as <- <-.
  match type of Hc with _ = (Returned (?handle, ?up', ?ec, ?f), _) =>
    destruct (upload f handle
                (sessions (Collaborators0 := testWorld world_ok)
                   (take 4 known_hosts)
                   (uint64 (uint64 (PieceSize up' * uint64 (NumPieces ec)) * 1))
                   (Duration up') (masterKey f)) odd_sched) as [[tr s]|] eqn:Hrun;
      [|vm_compute in Hrun; discriminate Hrun]
  end.
  assert (disp s = DRet None) as Hret.
  { vm_compute in Hrun. injection Hrun as <- <-. reflexivity. }
  destruct (Upload_registers_uploaded_file (Collaborators0 := testWorld world_ok)
              odd_request odd_sched emptyRenter _ _ _ _ _ _ _ tr s Hc Hr
              ltac:(vm_compute; discriminate) Hrun Hret) as [Hfiles Hout].
  unfold Upload_in. rewrite Hfiles, Hout. simpl.
  split; [reflexivity|]. rewrite lookup_insert_eq. simpl.
  vm_compute in Hrun. injection Hrun as <- <-. vm_compute. reflexivity.
Defined.

(** One session could be opened; it is closed when [Upload] gives up. *)
Lemma Upload_closes_sessions_witness :
  exists l, rlog (Upload_in world_few plain_request [] emptyRenter).2
            = l ++ [FxClose 0] /\
            Forall (fun x => forall i, x <> FxClose i) l.
Proof.
  destruct (Upload_checks_in world_few plain_request emptyRenter)
    as [[[[[handle up'] ec] f]|e| |] st1] eqn:Hc;
    [|vm_compute in Hc; discriminate Hc..].
  pose proof Hc as Hv. vm_compute in Hv. injection Hv as <- <- <- <- <-.
  match type of Hc with _ = (Returned (_, _, ?ec, _), ?st1) =>
    destruct (hostDB_RandomHosts (Collaborators := testWorld world_few)
                (hostDB st1) (requested_hosts ec)) as [cands db'] eqn:Hr
  end.
  pose proof Hr as Hrv. vm_compute in Hrv. injection Hrv as <- <-.
  destruct (Upload_closes_sessions (Collaborators0 := testWorld world_few)
              plain_request [] emptyRenter _ _ _ _ _ _ _ Hc Hr) as (l & Hl & Hf).
  exists l. split; [|exact Hf].
  unfold Upload_in. rewrite Hl. vm_compute. reflexivity.
Defined.

(** An empty file passes the balance check of an empty wallet. *)
Lemma checkWalletBalance_empty_file_witness :
  wallet_ConfirmedBalance (Collaborators := testWorld world_empty) = 0 /\
  (checkWalletBalance_in world_empty odd_request emptyRenter).1 = Returned tt.
Proof.
  split; [reflexivity|].
  apply (checkWalletBalance_empty_file (Collaborators0 := testWorld world_empty)
           odd_request (repCoder 3) emptyRenter (mkFileInfo 0 420)).
  - reflexivity.
  - vm_compute. reflexivity.
  - reflexivity.
  - vm_compute. discriminate.
  - vm_compute. discriminate.
Defined.

End MoreOnWorlds.
